(** * Episode ingestion and search: a shallow embedding of
      [quickStart.py] and [grafityMain.py]

    The service receives JSON, asks an LLM for a node/edge graph, and
    merges the answer into a Neo4j store through Cypher [MERGE]
    statements.  Python values that come out of [request.json] and
    [json.loads] are modelled by the type [json]; the handlers are
    written in a state-and-exception monad over a [World] that holds the
    graph store and the history of every interaction with the outside
    (clock, Graphiti engine, LLM, Cypher session, logger).  What the
    outside answers is a parameter, [Env].

    Layout: Python values and their operations; the store and the three
    Cypher statements; the world and the monad; the handlers of
    [quickStart.py] and [grafityMain.py]; a concrete outside for
    examples; the notions the results are stated with; then the proofs:
    the algebra of [MERGE], idempotence of the upsert, what an upsert
    can write, skipped entries, the batch loop, reference time, parse
    failure, search, and the results on concrete requests; then the
    extractor's filter, what a successful upsert has established, the
    invariants of the batch endpoint, how an episode fails, the answers
    of the search endpoint, [add_episode_to_graphiti] and the
    settings. *)

From Stdlib Require Import List String Ascii ZArith Bool Arith Lia.
Import ListNotations.
Open Scope string_scope.
Open Scope list_scope.

Set Implicit Arguments.
Set Warnings "-register-all".

(* ================================================================== *)
(** * Python values *)
(* ================================================================== *)

(** What [json.loads] and [request.json] produce.  A [dict] keeps its
    insertion order, hence the association list; numbers are integers. *)
Inductive json : Type :=
| JNull
| JBool (b : bool)
| JNum (n : Z)
| JStr (s : string)
| JArr (items : list json)
| JObj (fields : list (string * json)).

(** [json] nests through [list]: the induction principle is written out. *)
Section JsonInd.
Variable P : json -> Prop.
Hypothesis Hnull : P JNull.
Hypothesis Hbool : forall b, P (JBool b).
Hypothesis Hnum : forall n, P (JNum n).
Hypothesis Hstr : forall s, P (JStr s).
Hypothesis Harr : forall l, Forall P l -> P (JArr l).
Hypothesis Hobj : forall l, Forall (fun kv => P (snd kv)) l -> P (JObj l).

Fixpoint json_rect' (v : json) : P v :=
  match v with
  | JNull => Hnull
  | JBool b => Hbool b
  | JNum n => Hnum n
  | JStr s => Hstr s
  | JArr l =>
      Harr ((fix go (l : list json) : Forall P l :=
               match l with
               | [] => Forall_nil _
               | x :: r => Forall_cons x (json_rect' x) (go r)
               end) l)
  | JObj l =>
      Hobj ((fix go (l : list (string * json))
               : Forall (fun kv => P (snd kv)) l :=
               match l with
               | [] => Forall_nil _
               | kv :: r => Forall_cons kv (json_rect' (snd kv)) (go r)
               end) l)
  end.
End JsonInd.

Fixpoint json_eqb (x y : json) {struct x} : bool :=
  match x, y with
  | JNull, JNull => true
  | JBool a, JBool b => Bool.eqb a b
  | JNum a, JNum b => Z.eqb a b
  | JStr a, JStr b => String.eqb a b
  | JArr l, JArr m =>
      (fix go (l m : list json) {struct l} : bool :=
         match l, m with
         | [], [] => true
         | a :: l', b :: m' => json_eqb a b && go l' m'
         | _, _ => false
         end) l m
  | JObj l, JObj m =>
      (fix go (l m : list (string * json)) {struct l} : bool :=
         match l, m with
         | [], [] => true
         | (k, a) :: l', (k', b) :: m' =>
             String.eqb k k' && json_eqb a b && go l' m'
         | _, _ => false
         end) l m
  | _, _ => false
  end.

(** Python truth value, as tested by [if x:] and [not x]. *)
Definition truthy (v : json) : bool :=
  match v with
  | JNull => false
  | JBool b => b
  | JNum n => negb (n =? 0)%Z
  | JStr s => negb (s =? "")
  | JArr l => match l with [] => false | _ => true end
  | JObj l => match l with [] => false | _ => true end
  end.

Definition is_dict (v : json) : bool :=
  match v with JObj _ => true | _ => false end.

(* ------------------------------------------------------------------ *)
(** ** Exceptions *)

Inductive type_error : Type :=
| NotIterable      (* for x in v / argument of "in"                        *)
| BadIndex         (* v["edges"] on a list or a str                        *)
| Unhashable       (* v in a_set, v a list or a dict                       *)
| BadArgument.     (* a built-in called on a value of the wrong type       *)

Inductive exn : Type :=
| AttributeError (obj : json) (attr : string)
| TypeError (kind : type_error) (obj : json)
| ValueError (msg : string)
| JSONDecodeError (msg : string)
| PlainException (msg : string)            (* raise Exception(msg)         *)
| LibraryError (cls msg : string).         (* raised inside a library call *)

Inductive result (A : Type) : Type :=
| Ok (a : A)
| Raise (e : exn).
Arguments Ok {A} a.
Arguments Raise {A} e.

Definition rbind {A B} (r : result A) (k : A -> result B) : result B :=
  match r with
  | Ok a => k a
  | Raise e => Raise e
  end.

Declare Scope py_scope.
Delimit Scope py_scope with py.
Notation "x <- c ;; k" := (rbind c (fun x => k))
  (at level 61, c at next level, right associativity) : py_scope.

(* ------------------------------------------------------------------ *)
(** ** The operations of Python that the handlers use *)

Fixpoint assoc (k : string) (l : list (string * json)) : option json :=
  match l with
  | [] => None
  | (k', v) :: r => if String.eqb k k' then Some v else assoc k r
  end.

(** [d.get(k, default)]; only a dict has the method. *)
Definition py_get (d : json) (k : string) (default : json) : result json :=
  match d with
  | JObj l => Ok (match assoc k l with Some v => v | None => default end)
  | _ => Raise (AttributeError d "get")
  end.

Fixpoint chars (s : string) : list json :=
  match s with
  | EmptyString => []
  | String c r => JStr (String c EmptyString) :: chars r
  end.

(** The items a [for] loop sees. *)
Definition py_iter (v : json) : result (list json) :=
  match v with
  | JArr l => Ok l
  | JObj l => Ok (map (fun kv => JStr (fst kv)) l)
  | JStr s => Ok (chars s)
  | _ => Raise (TypeError NotIterable v)
  end.

Fixpoint is_substring (p s : string) : bool :=
  String.prefix p s ||
  match s with
  | EmptyString => false
  | String _ r => is_substring p r
  end.

(** [k in v] for a string [k]: key of a dict, element of a list,
    substring of a str. *)
Definition py_contains (k : string) (v : json) : result bool :=
  match v with
  | JObj l => Ok (match assoc k l with Some _ => true | None => false end)
  | JArr l => Ok (existsb (json_eqb (JStr k)) l)
  | JStr s => Ok (is_substring k s)
  | _ => Raise (TypeError NotIterable v)
  end.

(** [v[k]] for a string [k]. *)
Definition py_getitem (v : json) (k : string) : result json :=
  match v with
  | JObj l =>
      match assoc k l with
      | Some x => Ok x
      | None => Raise (LibraryError "KeyError" k)
      end
  | JArr _ | JStr _ => Raise (TypeError BadIndex v)
  | _ => Raise (TypeError BadArgument v)
  end.

Fixpoint set_field (k : string) (x : json) (l : list (string * json))
  : list (string * json) :=
  match l with
  | [] => [(k, x)]
  | (k', v) :: r =>
      if String.eqb k k' then (k', x) :: r else (k', v) :: set_field k x r
  end.

(** [v[k] = x] for a string [k]. *)
Definition py_setitem (v : json) (k : string) (x : json) : result json :=
  match v with
  | JObj l => Ok (JObj (set_field k x l))
  | JArr _ | JStr _ => Raise (TypeError BadIndex v)
  | _ => Raise (TypeError BadArgument v)
  end.

(* ================================================================== *)
(** * Relation Vocabulary *)
(* ================================================================== *)

Definition ALLOWED_RELATION_TYPES : list string :=
  ["does"; "performs"; "includes"; "happens_on"; "focuses_on"; "practices"].

Definition isAllowed (t : string) : bool :=
  existsb (String.eqb t) ALLOWED_RELATION_TYPES.

(** [v in ALLOWED_RELATION_TYPES]: a set of str; hashing a list or a
    dict raises, anything else that is not one of the six is absent. *)
Definition in_allowed (v : json) : result bool :=
  match v with
  | JStr s => Ok (isAllowed s)
  | JArr _ | JObj _ => Raise (TypeError Unhashable v)
  | _ => Ok false
  end.

(* ================================================================== *)
(** * The graph store *)
(* ================================================================== *)

(** Instants are kept abstract: the handlers only pass them along. *)
Definition datetime : Type := Z.

(** The engine's [EpisodeType]: the members the handlers know by name,
    and any other member the installed engine declares, by its name. *)
Inductive EpisodeType : Type :=
| message
| text
| json_source
| member (name : string).

(** The two kinds of node the handlers read or write.  A node is
    identified by its position in [nodes]; nothing here deletes. *)
Inductive node : Type :=
| Episode (name body : json) (source : EpisodeType)
          (source_description : json) (reference_time : datetime)
| Entity (name : json).

Record rel : Type := mkRel { rsrc : nat; rtype : string; rdst : nat }.

Record Graph : Type := mkGraph { nodes : list node; rels : list rel }.

Definition MENTIONS : string := "MENTIONS".

(** Cypher's [{name: $p}]: a null parameter matches no node. *)
Definition prop_matches (p v : json) : bool :=
  match p with
  | JNull => false
  | _ => json_eqb p v
  end.

Definition is_entity_named (p : json) (n : node) : bool :=
  match n with
  | Entity v => prop_matches p v
  | Episode _ _ _ _ _ => false
  end.

Definition is_episode_named (p : json) (n : node) : bool :=
  match n with
  | Episode v _ _ _ _ => prop_matches p v
  | Entity _ => false
  end.

(** The rows of a [MATCH]: identifiers of the nodes that satisfy [f],
    [i] being the identifier of the head of [ns]. *)
Fixpoint match_from (f : node -> bool) (ns : list node) (i : nat) : list nat :=
  match ns with
  | [] => []
  | n :: r => if f n then i :: match_from f r (S i) else match_from f r (S i)
  end.

Definition match_nodes (f : node -> bool) (g : Graph) : list nat :=
  match_from f (nodes g) 0.

Definition rel_eqb (r r' : rel) : bool :=
  Nat.eqb (rsrc r) (rsrc r') && String.eqb (rtype r) (rtype r')
  && Nat.eqb (rdst r) (rdst r').

Definition has_rel (r : rel) (g : Graph) : bool := existsb (rel_eqb r) (rels g).

(** [MERGE (a)-[:t]->(b)] for one row. *)
Definition merge_rel (t : string) (a b : nat) (g : Graph) : Graph :=
  if has_rel (mkRel a t b) g then g
  else mkGraph (nodes g) (rels g ++ [mkRel a t b]).

(** [MATCH (a ...) MATCH (b ...) MERGE (a)-[:t]->(b)]: one [MERGE] per
    row of the product, in order; no row, no write. *)
Definition merge_rels (t : string) (sources targets : list nat) (g : Graph)
  : Graph :=
  fold_left
    (fun g a => fold_left (fun g b => merge_rel t a b g) targets g)
    sources g.

(** The three statements [insert_structured_graph] sends. *)
Inductive Query : Type :=
| MergeEntity (name : json)
    (* MERGE (n:Entity {name: $name}) *)
| MergeMentions (episode_name entity_name : json)
    (* MATCH (e:Episode {name: $episode_name})
       MATCH (n:Entity {name: $entity_name})
       MERGE (e)-[:MENTIONS]->(n) *)
| MergeRel (rel_type : string) (source target : json).
    (* MATCH (a:Entity {name: $source})
       MATCH (b:Entity {name: $target})
       MERGE (a)-[r:`rel_type`]->(b) *)

Definition run_query (q : Query) (g : Graph) : Graph :=
  match q with
  | MergeEntity v =>
      if existsb (is_entity_named v) (nodes g) then g
      else mkGraph (nodes g ++ [Entity v]) (rels g)
  | MergeMentions ep v =>
      merge_rels MENTIONS
        (match_nodes (is_episode_named ep) g)
        (match_nodes (is_entity_named v) g) g
  | MergeRel t s d =>
      merge_rels t
        (match_nodes (is_entity_named s) g)
        (match_nodes (is_entity_named d) g) g
  end.

(* ================================================================== *)
(** * The world of a request *)
(* ================================================================== *)

Inductive LogRecord : Type :=
| LogLLMResponse (response_text : string)         (* info  *)
| LogParseFailure (e : exn)                       (* error *)
| LogEpisodeError (name : json) (e : exn)         (* error *)
| LogSearchQuery (query : string)                 (* info  *)
| LogSearchCount (n : nat)                        (* info  *)
| LogSearchFailure (e : exn)                      (* error, with traceback *)
| LogRequestData (request_data : json)            (* info  *)
| LogRequestFailure (e : exn)                     (* error *)
| LogTraceback (e : exn).                         (* error *)

(** One entry per interaction with the outside, latest first. *)
Inductive Event : Type :=
| EvNow (t : datetime)
| EvAddEpisode (name body : json) (source : EpisodeType)
               (source_description : json) (reference_time : datetime)
| EvCompletion (prompt : string)
| EvRun (q : Query)
| EvConnect
| EvSearch (query : string)
| EvLog (r : LogRecord).

Record World : Type := mkWorld { graph : Graph; history : list Event }.

(** What the outside answers.  An answer may depend on everything that
    happened before, so two calls with the same argument may differ. *)
Record Env : Type := mkEnv {
  (* str() of a value that is not a str, and of a built-in error *)
  py_repr : json -> string;
  builtin_msg : exn -> string;
  (* datetime.now(timezone.utc) and datetime.fromisoformat *)
  utcnow : list Event -> datetime;
  fromisoformat : string -> option datetime;
  (* graphiti.add_episode: the error it raises, if any *)
  add_episode_fault :
    list Event -> json -> json -> EpisodeType -> json -> datetime -> option exn;
  (* client.chat.completions.create(...).choices[0].message.content.strip() *)
  chat_completion : list Event -> string -> result string;
  (* json.loads *)
  json_loads : string -> result json;
  (* the server refusing to store a value as a property *)
  property_fault : json -> option exn;
}.

(** [str(v)] and [f"{v}"]. *)
Definition py_str (E : Env) (v : json) : string :=
  match v with
  | JStr s => s
  | _ => py_repr E v
  end.

(** [str(e)]. *)
Definition str_exn (E : Env) (e : exn) : string :=
  match e with
  | ValueError m | JSONDecodeError m | PlainException m | LibraryError _ m => m
  | AttributeError _ _ | TypeError _ _ => builtin_msg E e
  end.

(* ------------------------------------------------------------------ *)
(** ** State and exceptions *)

Definition M (A : Type) : Type := World -> result A * World.

Definition ret {A} (a : A) : M A := fun w => (Ok a, w).

Definition bind {A B} (c : M A) (k : A -> M B) : M B :=
  fun w =>
    match c w with
    | (Ok a, w') => k a w'
    | (Raise e, w') => (Raise e, w')
    end.

Definition raise {A} (e : exn) : M A := fun w => (Raise e, w).

Definition lift {A} (r : result A) : M A := fun w => (r, w).

Definition emit (ev : Event) : M unit :=
  fun w => (Ok tt, mkWorld (graph w) (ev :: history w)).

Definition past : M (list Event) := fun w => (Ok (history w), w).

Declare Scope m_scope.
Delimit Scope m_scope with m.
Notation "x <- c ;; k" := (bind c (fun x => k))
  (at level 61, c at next level, right associativity) : m_scope.
Notation "c ;; k" := (bind c (fun _ => k))
  (at level 61, right associativity) : m_scope.

Definition log (r : LogRecord) : M unit := emit (EvLog r).

(** [try: c  except <class> as e: h e], [catches] telling the class. *)
Definition try_catch {A} (catches : exn -> bool) (c : M A) (h : exn -> M A)
  : M A :=
  fun w =>
    match c w with
    | (Ok a, w') => (Ok a, w')
    | (Raise e, w') => if catches e then h e w' else (Raise e, w')
    end.

Definition any_exception (e : exn) : bool := true.

Definition is_JSONDecodeError (e : exn) : bool :=
  match e with JSONDecodeError _ => true | _ => false end.

(** [for x in l: body x]. *)
Fixpoint for_each {A} (body : A -> M unit) (l : list A) : M unit :=
  match l with
  | [] => ret tt
  | x :: r => (body x ;; for_each body r)%m
  end.

(** What a Flask view returns: [jsonify(body), status]. *)
Record Response : Type := mkResponse { status : nat; body : json }.

(* ================================================================== *)
(** * quickStart.py *)
(* ================================================================== *)

Module QuickStart.

Definition nl : string := String (ascii_of_nat 10) EmptyString.
Definition dq (s : string) : string :=
  (String (ascii_of_nat 34) s ++ String (ascii_of_nat 34) EmptyString)%string.

Definition prompt_head : list string :=
  [ "";
    "You are an expert at extracting structured data for knowledge graph generation.";
    " ";
    "Given a short paragraph, extract:";
    "- Specific entities (people, activities, days, exercises)";
    "- Clear, action-based relationships between them";
    " ";
    ("⚠️ DO NOT use generic relationships like " ++ dq "mentions" ++ ", "
      ++ dq "related_to" ++ ", or " ++ dq "associates_with" ++ ".")%string;
    "✅ You MUST use only the following relationships:" ]
  ++ map (fun t => ("  - " ++ dq t)%string) ALLOWED_RELATION_TYPES ++
  [ " ";
    "If no valid relationship can be formed, do NOT include that edge.";
    " ";
    "Output JSON structure:";
    "{";
    ("  " ++ dq "nodes" ++ ": [{ " ++ dq "name" ++ ": " ++ dq "<entity>"
      ++ " }],")%string;
    ("  " ++ dq "edges" ++ ": [{ " ++ dq "source" ++ ": " ++ dq "<entity>" ++ ", "
      ++ dq "target" ++ ": " ++ dq "<entity>" ++ ", "
      ++ dq "type" ++ ": " ++ dq "<relationship>" ++ " }]")%string;
    "}";
    " ";
    "Now extract from the following paragraph:";
    " " ].

(* ------------------------------------------------------------------ *)
(** ** Load .env *)

(** [os.getenv(k, default)] over the process environment, as it stands
    once [load_dotenv()] has run. *)
Definition getenv (environ : string -> option string) (k : string)
    (default : option string) : option string :=
  match environ k with
  | Some v => Some v
  | None => default
  end.

(** Truth value of what [os.getenv] returns: [None] and the empty str
    are false. *)
Definition is_set (v : option string) : bool :=
  match v with
  | Some s => negb (s =? "")%string
  | None => false
  end.

Record Config : Type := mkConfig {
  neo4j_uri : option string;
  neo4j_user : option string;
  neo4j_password : option string;
  openai_api_key : option string;
}.

(** The module-level reading of the settings and the check that
    follows it. *)
Definition load_config (environ : string -> option string) : result Config :=
  let neo4j_uri := getenv environ "NEO4J_URI" (Some "bolt://localhost:7687") in
  let neo4j_user := getenv environ "NEO4J_USER" (Some "neo4j") in
  let neo4j_password := getenv environ "NEO4J_PASSWORD" (Some "password") in
  let openai_api_key := getenv environ "OPENAI_API_KEY" None in
  if forallb is_set [neo4j_uri; neo4j_user; neo4j_password; openai_api_key]
  then Ok (mkConfig neo4j_uri neo4j_user neo4j_password openai_api_key)
  else Raise (ValueError "Missing required environment variables.").

Section Handlers.
Variable E : Env.

Definition prompt (text : json) : string :=
  String.concat nl (prompt_head ++ [py_str E text; ""]).

(* ---------------------------------------------------------------- *)
(** ** LLM extract function *)

(** [[edge for edge in edges if edge.get("type") in ALLOWED_RELATION_TYPES]] *)
Fixpoint keep_allowed (edges : list json) : result (list json) :=
  match edges with
  | [] => Ok []
  | edge :: rest =>
      (t <- py_get edge "type" JNull ;;
       keep <- in_allowed t ;;
       rest' <- keep_allowed rest ;;
       Ok (if keep then edge :: rest' else rest'))%py
  end.

Definition filter_relationships (structured_data : json) : result json :=
  (has_edges <- py_contains "edges" structured_data ;;
   if has_edges then
     edges <- py_getitem structured_data "edges" ;;
     items <- py_iter edges ;;
     kept <- keep_allowed items ;;
     py_setitem structured_data "edges" (JArr kept)
   else Ok structured_data)%py.

Definition create_completion (p : string) : M string :=
  (h <- past ;;
   emit (EvCompletion p) ;;
   lift (chat_completion E h p))%m.

Definition extract_structured_json (text : json) : M json :=
  (response_text <- create_completion (prompt text) ;;
   log (LogLLMResponse response_text) ;;
   try_catch is_JSONDecodeError
     (structured_data <- lift (json_loads E response_text) ;;
      lift (filter_relationships structured_data))
     (fun e => log (LogParseFailure e) ;; ret (JObj [])))%m.

(* ---------------------------------------------------------------- *)
(** ** Insert function *)

(** [await session.run(q, ...)]: the server refuses a property value it
    cannot store, otherwise the statement takes effect. *)
Definition session_run (q : Query) : M unit :=
  fun w =>
    let h := EvRun q :: history w in
    match match q with
          | MergeEntity v => property_fault E v
          | _ => None
          end with
    | Some e => (Raise e, mkWorld (graph w) h)
    | None => (Ok tt, mkWorld (run_query q (graph w)) h)
    end.

Definition insert_node (episode_name node : json) : M unit :=
  (name <- lift (py_get node "name" JNull) ;;
   if truthy name then
     session_run (MergeEntity name) ;;
     session_run (MergeMentions episode_name name)
   else ret tt)%m.

Definition insert_edge (edge : json) : M unit :=
  (source <- lift (py_get edge "source" JNull) ;;
   target <- lift (py_get edge "target" JNull) ;;
   rel_type <- lift (py_get edge "type" JNull) ;;
   allowed <- lift (in_allowed rel_type) ;;
   if negb allowed then ret tt   (* continue *)
   else session_run (MergeRel (py_str E rel_type) source target))%m.

(** [for node in structured_data.get("nodes", []): ...] *)
Definition insert_nodes (structured_data episode_name : json) : M unit :=
  (ns <- lift (n <- py_get structured_data "nodes" (JArr []) ;; py_iter n)%py ;;
   for_each (insert_node episode_name) ns)%m.

(** [for edge in structured_data.get("edges", []): ...] *)
Definition insert_edges (structured_data : json) : M unit :=
  (es <- lift (e <- py_get structured_data "edges" (JArr []) ;; py_iter e)%py ;;
   for_each insert_edge es)%m.

Definition insert_structured_graph (structured_data episode_name : json)
  : M unit :=
  (insert_nodes structured_data episode_name ;;
   insert_edges structured_data)%m.

(* ---------------------------------------------------------------- *)
(** ** API: Multiple payload *)

(** [await graphiti.add_episode(...)]: the engine records the episode
    unless it raises. *)
Definition graphiti_add_episode (name episode_body : json)
    (source : EpisodeType) (source_description : json)
    (reference_time : datetime) : M unit :=
  fun w =>
    let h := EvAddEpisode name episode_body source source_description
               reference_time :: history w in
    match add_episode_fault E (history w) name episode_body source
            source_description reference_time with
    | Some e => (Raise e, mkWorld (graph w) h)
    | None =>
        (Ok tt,
         mkWorld
           (mkGraph
              (nodes (graph w)
               ++ [Episode name episode_body source source_description
                     reference_time])
              (rels (graph w)))
           h)
    end.

Definition now_utc : M datetime :=
  (h <- past ;;
   emit (EvNow (utcnow E h)) ;;
   ret (utcnow E h))%m.

(** The inner [try: datetime.fromisoformat(reference_time) except
    Exception]: [None] is the [except] branch; a value that is not a
    str makes [fromisoformat] raise. *)
Definition parse_reference_time (reference_time : json) (now : datetime)
  : option datetime :=
  if truthy reference_time then
    match reference_time with
    | JStr s => fromisoformat E s
    | _ => None
    end
  else Some now.

Definition missing_error : json :=
  JObj [("error", JStr "Missing name or content for one episode")].

Definition invalid_time_error (name : json) : json :=
  JObj [("error", JStr ("Invalid reference_time for episode: " ++ py_str E name)%string)].

Definition success (name structured_json : json) : json :=
  JObj [("name", name);
        ("message", JStr "Episode added successfully");
        ("structured", structured_json)].

Definition failure (name : json) (e : exn) : json :=
  JObj [("name", name); ("error", JStr (str_exn E e))].

(** The [try] block of the loop body, after the episode write: extract,
    upsert when the extraction is not empty, build the result. *)
Definition after_episode_write (name content : json) : M json :=
  (structured_json <- extract_structured_json content ;;
   (if truthy structured_json
    then insert_structured_graph structured_json name
    else ret tt) ;;
   ret (success name structured_json))%m.

(** The [try] block of the loop body. *)
Definition ingest (name content description : json) (ref_time : datetime)
  : M json :=
  (graphiti_add_episode name content text description ref_time ;;
   after_episode_write name content)%m.

(** Its [except Exception as e] handler. *)
Definition ingest_failed (name : json) (e : exn) : M json :=
  (log (LogEpisodeError name e) ;; ret (failure name e))%m.

(** The body of [for ep in episodes]; the value is the dict the
    iteration appends to [results]. *)
Definition process_episode (ep : json) : M json :=
  (name <- lift (py_get ep "name" JNull) ;;
   content <- lift (py_get ep "content" JNull) ;;
   description <- lift (py_get ep "description" (JStr "")) ;;
   reference_time <- lift (py_get ep "reference_time" JNull) ;;
   if negb (truthy name) || negb (truthy content) then ret missing_error
   else
     now <- now_utc ;;
     match parse_reference_time reference_time now with
     | None => ret (invalid_time_error name)
     | Some ref_time =>
         try_catch any_exception
           (ingest name content description ref_time)
           (ingest_failed name)
     end)%m.

Fixpoint process_all (episodes results : list json) : M (list json) :=
  match episodes with
  | [] => ret results
  | ep :: rest =>
      (r <- process_episode ep ;; process_all rest (results ++ [r]))%m
  end.

Definition add_episodes (episodes : json) : M Response :=
  match episodes with
  | JArr l =>
      (results <- process_all l [] ;; ret (mkResponse 200 (JArr results)))%m
  | _ =>
      ret (mkResponse 400 (JObj [("error", JStr "Expected a list of episodes")]))
  end.

End Handlers.
End QuickStart.

(* ================================================================== *)
(** * grafityMain.py *)
(* ================================================================== *)

Module GrafityMain.

(** A match of [graphiti.search], with the attributes the facade reads. *)
Record EntityEdge : Type := mkEntityEdge {
  edge_uuid : string;
  edge_fact : string;
  edge_source_node_uuid : option string;
  edge_valid_at : option datetime;
  edge_invalid_at : option datetime;
}.

Record GraphitiSearchResult : Type := mkSearchResult {
  uuid : string;
  fact : string;
  valid_at : option string;
  invalid_at : option string;
  source_node_uuid : option string;
}.

Record SearchEnv : Type := mkSearchEnv {
  (* Graphiti(uri, user, password): the error it raises, if any *)
  connect_fault : list Event -> option exn;
  (* graphiti.search(query) *)
  graphiti_search : list Event -> string -> result (list EntityEdge);
  (* str() of a datetime *)
  str_datetime : datetime -> string;
}.

(** The body of an add-episode request, as the pydantic model holds it. *)
Record EpisodeRequest : Type := mkEpisodeRequest {
  ep_name : string;
  ep_content : string;
  ep_type : string;   (* "text" or "json" *)
  ep_description : string;
}.

(** [str.lower()] on an ASCII letter. *)
Definition lower_ascii (c : ascii) : ascii :=
  let n := nat_of_ascii c in
  if ((65 <=? n)%nat && (n <=? 90)%nat)%bool then ascii_of_nat (n + 32) else c.

(** The three bytes of U+212A KELVIN SIGN, the one character outside
    ASCII that [str.lower()] turns into ASCII (the letter k). *)
Definition is_kelvin (a b c : ascii) : bool :=
  ((nat_of_ascii a =? 226)%nat && (nat_of_ascii b =? 132)%nat
   && (nat_of_ascii c =? 170)%nat)%bool.

(** [str.lower()] as far as ASCII goes, on the UTF-8 bytes of the str:
    the result is an ASCII name exactly when Python's is.  Characters
    that lower to something outside ASCII are left as they are. *)
Fixpoint lower (s : string) : string :=
  match s with
  | EmptyString => EmptyString
  | String a r =>
      match r with
      | String b (String c r') =>
          if is_kelvin a b c then String "k" (lower r')
          else String (lower_ascii a) (lower r)
      | _ => String (lower_ascii a) (lower r)
      end
  end.

(** The member of [EpisodeType] that bears the name [k]. *)
Definition EpisodeType_named (k : string) : EpisodeType :=
  if (k =? "message")%string then message
  else if (k =? "json")%string then json_source
  else if (k =? "text")%string then text
  else member k.

(** [EpisodeType[k]].  The enum is the engine's, not this repository's:
    [names] are the names of its members in declaration order, what
    [[e.name for e in EpisodeType]] lists (ASCII identifiers). *)
Definition EpisodeType_getitem (names : list string) (k : string)
  : result EpisodeType :=
  if existsb (String.eqb k) names then Ok (EpisodeType_named k)
  else Raise (LibraryError "KeyError" k).

Definition is_KeyError (e : exn) : bool :=
  match e with
  | LibraryError cls _ => String.eqb cls "KeyError"
  | _ => false
  end.

(** The repr of a list of str that need no escaping, as an f-string
    prints it. *)
Definition repr_names (names : list string) : string :=
  ("[" ++ String.concat ", " (map (fun n => "'" ++ n ++ "'") names) ++ "]")%string.

Definition invalid_type_message (names : list string) (type : string) : string :=
  ("Invalid episode type: " ++ type ++ ". Must be one of " ++ repr_names names)%string.

Section Handlers.
Variable E : Env.
Variable S : SearchEnv.
(* the names of the members of the engine's EpisodeType *)
Variable EpisodeType_names : list string.

(** Async function to insert episode. *)
Definition add_episode_to_graphiti (episode : EpisodeRequest) : M unit :=
  (episode_type <-
     try_catch is_KeyError
       (lift (EpisodeType_getitem EpisodeType_names (lower (ep_type episode))))
       (fun _ =>
          raise (ValueError
                   (invalid_type_message EpisodeType_names (ep_type episode)))) ;;
   now <- QuickStart.now_utc E ;;
   QuickStart.graphiti_add_episode E (JStr (ep_name episode))
     (JStr (ep_content episode)) episode_type (JStr (ep_description episode))
     now)%m.

Definition format_result (r : EntityEdge) : GraphitiSearchResult :=
  mkSearchResult (edge_uuid r) (edge_fact r)
    (option_map (str_datetime S) (edge_valid_at r))
    (option_map (str_datetime S) (edge_invalid_at r))
    (edge_source_node_uuid r).

Definition search_call (query : string) : M (list EntityEdge) :=
  (h <- past ;;
   emit (EvSearch query) ;;
   lift (graphiti_search S h query))%m.

(** Records at debug level are not kept. *)
Definition search_graphiti (query : string) : M (list GraphitiSearchResult) :=
  try_catch any_exception
    (log (LogSearchQuery query) ;;
     results <- search_call query ;;
     log (LogSearchCount (List.length results)) ;;
     ret (map format_result results))%m
    (fun e =>
       log (LogSearchFailure e) ;;
       raise (PlainException ("Graphiti search failed: " ++ str_exn E e)%string))%m.

(** Building the [SearchRequest] from the request body: a mapping with
    a str [query]. *)
Definition SearchRequest (request_data : json) : result string :=
  match request_data with
  | JObj l =>
      match assoc "query" l with
      | Some (JStr q) => Ok q
      | _ => Raise (LibraryError "ValidationError" "query")
      end
  | _ => Raise (TypeError BadArgument request_data)
  end.

Definition connect : M unit :=
  (h <- past ;;
   emit EvConnect ;;
   match connect_fault S h with
   | Some e => raise e
   | None => ret tt
   end)%m.

Definition opt_str (o : option string) : json :=
  match o with Some s => JStr s | None => JNull end.

(** [result.dict()] *)
Definition result_dict (r : GraphitiSearchResult) : json :=
  JObj [("uuid", JStr (uuid r));
        ("fact", JStr (fact r));
        ("valid_at", opt_str (valid_at r));
        ("invalid_at", opt_str (invalid_at r));
        ("source_node_uuid", opt_str (source_node_uuid r))].

Definition generic_failure : Response :=
  mkResponse 500
    (JObj [("detail", JStr "An error occurred while processing the request")]).

Definition search_graphiti_api (request_data : json) : M Response :=
  try_catch any_exception
    (log (LogRequestData request_data) ;;
     query <- lift (SearchRequest request_data) ;;
     connect ;;
     search_results <- search_graphiti query ;;
     ret (mkResponse 200 (JArr (map result_dict search_results))))%m
    (fun e =>
       log (LogRequestFailure e) ;;
       log (LogTraceback e) ;;
       ret generic_failure)%m.

End Handlers.
End GrafityMain.

(* ================================================================== *)
(** * A concrete outside, for examples *)
(* ================================================================== *)

Module Demo.
Import QuickStart.

Definition obj1 (k v : string) : string := (dq k ++ ":" ++ dq v)%string.

Definition edge_text (s d t : string) : string :=
  ("{" ++ obj1 "source" s ++ "," ++ obj1 "target" d ++ "," ++ obj1 "type" t
   ++ "}")%string.

(** The extractor's answer of the end-to-end example. *)
Definition alice_reply : string :=
  ("{" ++ dq "nodes" ++ ":[{" ++ obj1 "name" "Alice" ++ "},{"
   ++ obj1 "name" "Yoga" ++ "},{" ++ obj1 "name" "Monday" ++ "}],"
   ++ dq "edges" ++ ":[" ++ edge_text "Alice" "Yoga" "practices" ++ ","
   ++ edge_text "Alice" "Monday" "mentions_on" ++ "]}")%string.

Definition named (s : string) : json := JObj [("name", JStr s)].

Definition edge (s d t : string) : json :=
  JObj [("source", JStr s); ("target", JStr d); ("type", JStr t)].

Definition alice_graph : json :=
  JObj [("nodes", JArr [named "Alice"; named "Yoga"; named "Monday"]);
        ("edges", JArr [edge "Alice" "Yoga" "practices";
                        edge "Alice" "Monday" "mentions_on"])].

Definition prose : string := "Sorry, I cannot help with that.".

Definition decode_error : string := "Expecting value: line 1 column 1 (char 0)".

Definition env : Env := {|
  py_repr := fun _ => "<value>";
  builtin_msg := fun _ => "<built-in error>";
  utcnow := fun h => (1700000000 + Z.of_nat (List.length h))%Z;
  fromisoformat := fun s =>
    if (s =? "2025-01-01T00:00:00+00:00")%string then Some 1735689600%Z
    else None;
  add_episode_fault := fun _ name _ _ _ _ =>
    if json_eqb name (JStr "Unlucky")
    then Some (LibraryError "ServiceUnavailable" "store unreachable")
    else None;
  chat_completion := fun _ p =>
    if is_substring "Alice" p then Ok alice_reply
    else Ok prose;
  json_loads := fun s =>
    if (s =? alice_reply)%string then Ok alice_graph
    else Raise (JSONDecodeError decode_error);
  property_fault := fun v =>
    match v with
    | JObj _ => Some (LibraryError "CypherTypeError" "unsupported property value")
    | _ => None
    end;
|}.

Definition search_env : GrafityMain.SearchEnv := {|
  GrafityMain.connect_fault := fun _ => None;
  GrafityMain.graphiti_search := fun _ q =>
    if (q =? "yoga")%string
    then Ok [GrafityMain.mkEntityEdge "e-1" "Alice practices Yoga"
               (Some "n-1") (Some 1735689600%Z) None]
    else Raise (LibraryError "ServiceUnavailable" "connection refused");
  GrafityMain.str_datetime := fun _ => "2025-01-01 00:00:00+00:00";
|}.

Definition empty_world : World := mkWorld (mkGraph [] []) [].

Definition ep1 : json :=
  JObj [("name", JStr "Ep1"); ("content", JStr "Alice practices yoga on Monday.")].

Definition pushups : json := JStr "Bob does pushups.".

(** Requests the LLM answers in prose, not in JSON. *)
Definition ep_bob : json := JObj [("name", JStr "Ep2"); ("content", pushups)].

Definition ep_no_name : json := JObj [("content", pushups)].

Definition ep_empty_time : json :=
  JObj [("name", JStr "Ep3"); ("content", pushups); ("reference_time", JStr "")].

Definition ep_bad_time : json :=
  JObj [("name", JStr "Ep4"); ("content", pushups);
        ("reference_time", JStr "yesterday")].

Definition ep_unlucky : json :=
  JObj [("name", JStr "Unlucky"); ("content", pushups)].

(** A structured graph with a nameless node entry, and the same graph
    without the entry. *)
Definition graph_with_blank : json :=
  JObj [("nodes", JArr [named "Alice"; named ""; named "Yoga"]);
        ("edges", JArr [edge "Alice" "Yoga" "practices"])].

Definition graph_without_blank : json :=
  JObj [("nodes", JArr [named "Alice"; named "Yoga"]);
        ("edges", JArr [edge "Alice" "Yoga" "practices"])].

(** A structured graph with an edge to an entity nobody declared, and
    the same graph without the edge. *)
Definition graph_with_dangling : json :=
  JObj [("nodes", JArr [named "Alice"; named "Yoga"]);
        ("edges", JArr [edge "Alice" "Zumba" "practices";
                        edge "Alice" "Yoga" "practices"])].

Definition graph_without_dangling : json :=
  JObj [("nodes", JArr [named "Alice"; named "Yoga"]);
        ("edges", JArr [edge "Alice" "Yoga" "practices"])].

(** A store that already holds the episode Ep1. *)
Definition world_ep1 : World :=
  mkWorld
    (mkGraph
       [Episode (JStr "Ep1") (JStr "Alice practices yoga on Monday.") text
          (JStr "") 1700000000%Z]
       [])
    [].

(** A batch with a good request, a nameless one, one the engine
    refuses, one with a bad reference time, and one the LLM answers in
    prose. *)
Definition batch : list json :=
  [ep1; ep_no_name; ep_unlucky; ep_bad_time; ep_bob].

Definition refused : exn := LibraryError "ServiceUnavailable" "connection refused".

(** The end-to-end graph once the extractor has filtered it. *)
Definition alice_filtered : json :=
  JObj [("nodes", JArr [named "Alice"; named "Yoga"; named "Monday"]);
        ("edges", JArr [edge "Alice" "Yoga" "practices"])].

Definition rate_limited : exn := LibraryError "RateLimitError" "rate limit reached".

(** An outside whose LLM is out of reach. *)
Definition env_outage : Env := {|
  py_repr := py_repr env;
  builtin_msg := builtin_msg env;
  utcnow := utcnow env;
  fromisoformat := fromisoformat env;
  add_episode_fault := add_episode_fault env;
  chat_completion := fun _ _ => Raise rate_limited;
  json_loads := json_loads env;
  property_fault := property_fault env;
|}.

(** An outside whose LLM answers [null]. *)
Definition env_null : Env := {|
  py_repr := py_repr env;
  builtin_msg := builtin_msg env;
  utcnow := utcnow env;
  fromisoformat := fromisoformat env;
  add_episode_fault := add_episode_fault env;
  chat_completion := fun _ _ => Ok "null";
  json_loads := fun s =>
    if (s =? "null")%string then Ok JNull else Raise (JSONDecodeError decode_error);
  property_fault := property_fault env;
|}.

Definition ep_dated : json :=
  JObj [("name", JStr "Ep5"); ("content", pushups);
        ("reference_time", JStr "2025-01-01T00:00:00+00:00")].

Definition ep_numeric_time : json :=
  JObj [("name", JStr "Ep6"); ("content", pushups);
        ("reference_time", JNum 1700000000)].

Definition yoga_match : GrafityMain.EntityEdge :=
  GrafityMain.mkEntityEdge "e-1" "Alice practices Yoga" (Some "n-1")
    (Some 1735689600%Z) None.

(** A batch whose second element is the number 3, between two good
    requests. *)
Definition batch_with_number : list json := [ep1; JNum 3; ep1].

(** The member names of an engine that declares a fourth member. *)
Definition four_members : list string :=
  ["message"; "json"; "text"; "fact_triple"].

Definition shouted : GrafityMain.EpisodeRequest :=
  GrafityMain.mkEpisodeRequest "Ep7" "Bob does pushups." "TEXT" "a note".


End Demo.

(* ================================================================== *)
(** * Notions used to state the results *)
(* ================================================================== *)

(** One source against every target. *)
Definition merge_row (t : string) (a : nat) (targets : list nat) (g : Graph)
  : Graph :=
  fold_left (fun g b => merge_rel t a b g) targets g.

Definition entity_exists (v : json) (g : Graph) : bool :=
  existsb (is_entity_named v) (nodes g).

(** Every row of the product already carries its [t] relationship. *)
Definition all_linked (t : string) (sources targets : list nat) (g : Graph)
  : Prop :=
  forall a b, In a sources -> In b targets -> has_rel (mkRel a t b) g = true.

(** A statement has nothing left to write in [g]. *)
Definition settled (q : Query) (g : Graph) : Prop :=
  match q with
  | MergeEntity v => entity_exists v g = true
  | MergeMentions ep v =>
      entity_exists v g = true /\
      all_linked MENTIONS (match_nodes (is_episode_named ep) g)
        (match_nodes (is_entity_named v) g) g
  | MergeRel t s d =>
      all_linked t (match_nodes (is_entity_named s) g)
        (match_nodes (is_entity_named d) g) g
  end.

Definition any_query (q : Query) : bool := true.

Definition adds_no_node (q : Query) : bool :=
  match q with
  | MergeEntity _ => false
  | _ => true
  end.

Definition is_merge_rel (q : Query) : bool :=
  match q with
  | MergeRel _ _ _ => true
  | _ => false
  end.

(** [g'] is [g] after some statements, each allowed by [ok]. *)
Inductive evolves (ok : Query -> bool) : Graph -> Graph -> Prop :=
| evolves_refl g : evolves ok g g
| evolves_step g g' q :
    ok q = true -> evolves ok g g' -> evolves ok g (run_query q g').

(** The store and the history only grow. *)
Definition extends (w w' : World) : Prop :=
  (exists evs, history w' = evs ++ history w) /\
  (exists ns, nodes (graph w') = nodes (graph w) ++ ns) /\
  (exists rs, rels (graph w') = rels (graph w) ++ rs).

(** Running [c] again on any later store changes nothing and ends the
    same way; [ok] bounds the statements run by [c] and after it. *)
Definition rerunnable {A} (ok : Query -> bool) (c : M A) : Prop :=
  forall w,
    evolves ok (graph w) (graph (snd (c w))) /\
    forall g2 h2,
      evolves ok (graph (snd (c w))) g2 ->
      fst (c (mkWorld g2 h2)) = fst (c w) /\
      graph (snd (c (mkWorld g2 h2))) = g2.

(** [c] maintains [I], however it ends. *)
Definition preserves {A} (I : World -> Prop) (c : M A) : Prop :=
  forall w, I w -> I (snd (c w)).

(** The statements [insert_structured_graph] is meant to send: a
    truthy entity name, a relationship type of the vocabulary. *)
Definition well_formed_query (q : Query) : bool :=
  match q with
  | MergeEntity v => truthy v
  | MergeMentions _ v => truthy v
  | MergeRel t _ _ => isAllowed t
  end.

Definition is_episode (n : node) : bool :=
  match n with Episode _ _ _ _ _ => true | Entity _ => false end.

Definition is_entity (n : node) : bool :=
  match n with Entity _ => true | Episode _ _ _ _ _ => false end.

(** The node identified by [i] exists and satisfies [f]. *)
Definition node_is (f : node -> bool) (i : nat) (g : Graph) : bool :=
  match nth_error (nodes g) i with
  | Some n => f n
  | None => false
  end.

(** What a relationship of the store can be after an upsert that
    started from [g0]: there before, a provenance edge from an Episode
    to an Entity, or an edge of the vocabulary between two Entities. *)
Definition legitimate_edge (g0 g : Graph) (r : rel) : Prop :=
  In r (rels g0) \/
  (rtype r = MENTIONS /\
   node_is is_episode (rsrc r) g = true /\ node_is is_entity (rdst r) g = true) \/
  (isAllowed (rtype r) = true /\
   node_is is_entity (rsrc r) g = true /\ node_is is_entity (rdst r) g = true).

(** What a node of the store can be after an upsert that started from
    [g0]: there before, or an Entity with a truthy name. *)
Definition legitimate_node (g0 : Graph) (n : node) : Prop :=
  In n (nodes g0) \/ exists v, n = Entity v /\ truthy v = true.

(** The outcome of [c] and the store it leaves do not depend on the
    history it starts from. *)
Definition history_blind {A} (c : M A) : Prop :=
  forall g h1 h2,
    fst (c (mkWorld g h1)) = fst (c (mkWorld g h2)) /\
    graph (snd (c (mkWorld g h1))) = graph (snd (c (mkWorld g h2))).

(** The world once the loop of [add_episodes] has been through
    [episodes]. *)
Definition world_after (E : Env) (episodes : list json) (w : World) : World :=
  fold_left (fun w ep => snd (QuickStart.process_episode E ep w)) episodes w.

(** The request carries a non-empty name and a non-empty content. *)
Definition validated (ep name content : json) : Prop :=
  py_get ep "name" JNull = Ok name /\
  py_get ep "content" JNull = Ok content /\
  truthy name = true /\ truthy content = true.

(** The dicts an iteration can append for the request [ep]: the fixed
    error without a name when name or content is missing or empty; the
    error that quotes the name in its text when the reference time does
    not parse; otherwise a dict with the [name] field, either the
    success message with the structured graph or the error detail. *)
Inductive outcome_of (E : Env) (ep : json) : json -> Prop :=
| outcome_missing name content :
    py_get ep "name" JNull = Ok name ->
    py_get ep "content" JNull = Ok content ->
    truthy name = false \/ truthy content = false ->
    outcome_of E ep QuickStart.missing_error
| outcome_invalid_time name content reference_time :
    validated ep name content ->
    py_get ep "reference_time" JNull = Ok reference_time ->
    (forall now, QuickStart.parse_reference_time E reference_time now = None) ->
    outcome_of E ep (QuickStart.invalid_time_error E name)
| outcome_success name content reference_time now ref_time structured_json :
    validated ep name content ->
    py_get ep "reference_time" JNull = Ok reference_time ->
    QuickStart.parse_reference_time E reference_time now = Some ref_time ->
    outcome_of E ep (QuickStart.success name structured_json)
| outcome_failure name content reference_time now ref_time e :
    validated ep name content ->
    py_get ep "reference_time" JNull = Ok reference_time ->
    QuickStart.parse_reference_time E reference_time now = Some ref_time ->
    outcome_of E ep (QuickStart.failure E name e).

(** The request gets as far as the [try] block: it is validated and its
    reference time, if any, parses. *)
Definition reaches_write (E : Env) (ep : json) : Prop :=
  exists name content reference_time now ref_time,
    validated ep name content /\
    py_get ep "reference_time" JNull = Ok reference_time /\
    QuickStart.parse_reference_time E reference_time now = Some ref_time.

(** The test of the extractor's comprehension, on one edge entry. *)
Definition edge_kept (edge : json) : bool :=
  match py_get edge "type" JNull with
  | Ok (JStr s) => isAllowed s
  | _ => false
  end.

(** A JSON value that is neither an object, nor an array, nor a
    string. *)
Definition is_scalar (v : json) : bool :=
  match v with
  | JNull | JBool _ | JNum _ => true
  | _ => false
  end.

Definition is_log (ev : Event) : bool :=
  match ev with
  | EvLog _ => true
  | _ => false
  end.

(** A node entry [insert_structured_graph] gets through: a dict whose
    name, when truthy, the server accepts as a property. *)
Definition node_accepted (E : Env) (node : json) : Prop :=
  exists name,
    py_get node "name" JNull = Ok name /\
    (truthy name = true -> property_fault E name = None).

(** An edge entry [insert_structured_graph] gets through: a dict whose
    type can be looked up in the vocabulary. *)
Definition edge_accepted (edge : json) : Prop :=
  exists rel_type allowed,
    py_get edge "type" JNull = Ok rel_type /\
    in_allowed rel_type = Ok allowed.


(** The statements an upsert for the episode [ep] sends. *)
Definition sent_for (ep : json) (q : Query) : Prop :=
  match q with
  | MergeEntity v => truthy v = true
  | MergeMentions ep' v => ep' = ep /\ truthy v = true
  | MergeRel t _ _ => isAllowed t = true
  end.

(* ================================================================== *)
(** * Values: equality *)
(* ================================================================== *)

Lemma json_eqb_true (x : json) : forall y, json_eqb x y = true -> x = y.
Proof.
  induction x using json_rect'; destruct y; simpl; try discriminate; intros E.
  - reflexivity.
  - apply Bool.eqb_prop in E. now subst.
  - apply Z.eqb_eq in E. now subst.
  - apply String.eqb_eq in E. now subst.
  - f_equal. revert items E.
    induction H as [|x l Hx Hl IH]; intros [|y m] E; try discriminate.
    + reflexivity.
    + apply andb_true_iff in E as [E1 E2].
      f_equal; [now apply Hx | now apply IH].
  - f_equal. revert fields E.
    induction H as [|[k x] l Hx Hl IH]; intros [|[k' y] m] E; try discriminate.
    + reflexivity.
    + apply andb_true_iff in E as [E1 E3].
      apply andb_true_iff in E1 as [E1 E2].
      apply String.eqb_eq in E1. subst k'.
      f_equal; [f_equal; now apply Hx | now apply IH].
Qed.

Lemma json_eqb_refl (x : json) : json_eqb x x = true.
Proof.
  induction x using json_rect'; simpl.
  - reflexivity.
  - now destruct b.
  - apply Z.eqb_refl.
  - apply String.eqb_refl.
  - induction H as [|x l Hx Hl IH]; [reflexivity|].
    now rewrite Hx, IH.
  - induction H as [|[k x] l Hx Hl IH]; [reflexivity|].
    simpl in Hx. now rewrite String.eqb_refl, Hx, IH.
Qed.

Lemma prop_matches_eq (p v : json) : prop_matches p v = true -> p = v.
Proof.
  destruct p; try discriminate; apply json_eqb_true.
Qed.

(* ================================================================== *)
(** * The store: what a [MERGE] writes *)
(* ================================================================== *)

Section StoreAlgebra.

Lemma rel_eqb_eq (r r' : rel) : rel_eqb r r' = true <-> r = r'.
Proof.
  destruct r as [a t b], r' as [a' t' b']; unfold rel_eqb; simpl.
  rewrite !andb_true_iff, !Nat.eqb_eq, String.eqb_eq.
  split; [intros [[-> ->] ->]; reflexivity | intros [= -> -> ->]; auto].
Qed.

Lemma has_rel_In (r : rel) (g : Graph) : has_rel r g = true <-> In r (rels g).
Proof.
  unfold has_rel. rewrite existsb_exists. split.
  - intros [x [Hx Hr]]. apply rel_eqb_eq in Hr. now subst.
  - intros H. exists r. split; [assumption | now apply rel_eqb_eq].
Qed.

Lemma merge_rel_nodes t a b g : nodes (merge_rel t a b g) = nodes g.
Proof. unfold merge_rel. now destruct (has_rel _ g). Qed.

Lemma merge_rel_keeps t a b g r :
  In r (rels g) -> In r (rels (merge_rel t a b g)).
Proof.
  unfold merge_rel. destruct (has_rel _ g); simpl; [auto|].
  intros H. apply in_or_app. now left.
Qed.

Lemma merge_rel_has t a b g : In (mkRel a t b) (rels (merge_rel t a b g)).
Proof.
  unfold merge_rel. destruct (has_rel _ g) eqn:H.
  - now apply has_rel_In.
  - simpl. apply in_or_app. right. now left.
Qed.

Lemma merge_rel_origin t a b g r :
  In r (rels (merge_rel t a b g)) -> In r (rels g) \/ r = mkRel a t b.
Proof.
  unfold merge_rel. destruct (has_rel _ g); simpl; [auto|].
  intros H. apply in_app_or in H as [H | [H | []]]; auto.
Qed.

Lemma merge_rel_grows t a b g :
  exists rs, rels (merge_rel t a b g) = rels g ++ rs.
Proof.
  unfold merge_rel. destruct (has_rel _ g); simpl.
  - exists []. now rewrite app_nil_r.
  - now eexists.
Qed.

Lemma merge_row_nodes t a bs : forall g, nodes (merge_row t a bs g) = nodes g.
Proof.
  induction bs as [|b bs IH]; intros g; simpl; [reflexivity|].
  unfold merge_row in *. simpl. rewrite IH. apply merge_rel_nodes.
Qed.

Lemma merge_row_keeps t a bs r :
  forall g, In r (rels g) -> In r (rels (merge_row t a bs g)).
Proof.
  induction bs as [|b bs IH]; intros g H; [exact H|].
  unfold merge_row in *. simpl. apply IH. now apply merge_rel_keeps.
Qed.

Lemma merge_row_has t a bs b :
  forall g, In b bs -> In (mkRel a t b) (rels (merge_row t a bs g)).
Proof.
  induction bs as [|b' bs IH]; intros g H; [contradiction|].
  unfold merge_row in *. simpl. destruct H as [-> | H].
  - apply (merge_row_keeps t a bs). apply merge_rel_has.
  - now apply IH.
Qed.

Lemma merge_row_origin t a bs r :
  forall g, In r (rels (merge_row t a bs g)) ->
            In r (rels g) \/ (exists b, In b bs /\ r = mkRel a t b).
Proof.
  induction bs as [|b' bs IH]; intros g H; [now left|].
  unfold merge_row in *. simpl in H. apply IH in H as [H | [b [Hb ->]]].
  - apply merge_rel_origin in H as [H | ->]; [now left|].
    right. exists b'. split; [now left | reflexivity].
  - right. exists b. split; [now right | reflexivity].
Qed.

Lemma merge_row_grows t a bs :
  forall g, exists rs, rels (merge_row t a bs g) = rels g ++ rs.
Proof.
  induction bs as [|b bs IH]; intros g.
  - exists []. simpl. now rewrite app_nil_r.
  - unfold merge_row in *. simpl.
    destruct (IH (merge_rel t a b g)) as [rs Hrs].
    destruct (merge_rel_grows t a b g) as [rs' Hrs'].
    exists (rs' ++ rs). now rewrite Hrs, Hrs', app_assoc.
Qed.

Lemma merge_row_noop t a bs :
  forall g, (forall b, In b bs -> In (mkRel a t b) (rels g)) ->
            merge_row t a bs g = g.
Proof.
  induction bs as [|b bs IH]; intros g H; [reflexivity|].
  unfold merge_row in *. simpl.
  assert (Hb : merge_rel t a b g = g).
  { unfold merge_rel.
    now rewrite (proj2 (has_rel_In (mkRel a t b) g) (H b (or_introl eq_refl))). }
  rewrite Hb. apply IH. intros b' Hb'. apply H. now right.
Qed.

Lemma merge_rels_unfold t a srcs bs g :
  merge_rels t (a :: srcs) bs g = merge_rels t srcs bs (merge_row t a bs g).
Proof. reflexivity. Qed.

Lemma merge_rels_nodes t srcs bs :
  forall g, nodes (merge_rels t srcs bs g) = nodes g.
Proof.
  induction srcs as [|a srcs IH]; intros g; [reflexivity|].
  rewrite merge_rels_unfold, IH. apply merge_row_nodes.
Qed.

Lemma merge_rels_keeps t srcs bs r :
  forall g, In r (rels g) -> In r (rels (merge_rels t srcs bs g)).
Proof.
  induction srcs as [|a srcs IH]; intros g H; [exact H|].
  rewrite merge_rels_unfold. apply IH. now apply merge_row_keeps.
Qed.

Lemma merge_rels_has t srcs bs a b :
  forall g, In a srcs -> In b bs ->
            In (mkRel a t b) (rels (merge_rels t srcs bs g)).
Proof.
  induction srcs as [|a' srcs IH]; intros g Ha Hb; [contradiction|].
  rewrite merge_rels_unfold. destruct Ha as [-> | Ha].
  - apply merge_rels_keeps. now apply merge_row_has.
  - now apply IH.
Qed.

Lemma merge_rels_origin t srcs bs r :
  forall g, In r (rels (merge_rels t srcs bs g)) ->
            In r (rels g) \/
            (rtype r = t /\ In (rsrc r) srcs /\ In (rdst r) bs).
Proof.
  induction srcs as [|a srcs IH]; intros g H; [now left|].
  rewrite merge_rels_unfold in H. apply IH in H as [H | (Ht & Ha & Hb)].
  - apply merge_row_origin in H as [H | [b [Hb ->]]]; [now left|].
    right. simpl. auto.
  - right. simpl. auto.
Qed.

Lemma merge_rels_grows t srcs bs :
  forall g, exists rs, rels (merge_rels t srcs bs g) = rels g ++ rs.
Proof.
  induction srcs as [|a srcs IH]; intros g.
  - exists []. simpl. now rewrite app_nil_r.
  - rewrite merge_rels_unfold.
    destruct (IH (merge_row t a bs g)) as [rs Hrs].
    destruct (merge_row_grows t a bs g) as [rs' Hrs'].
    exists (rs' ++ rs). now rewrite Hrs, Hrs', app_assoc.
Qed.

Lemma merge_rels_noop t srcs bs :
  forall g, all_linked t srcs bs g -> merge_rels t srcs bs g = g.
Proof.
  induction srcs as [|a srcs IH]; intros g H; [reflexivity|].
  rewrite merge_rels_unfold.
  assert (Ha : merge_row t a bs g = g).
  { apply merge_row_noop. intros b Hb. apply has_rel_In.
    apply H; [now left | assumption]. }
  rewrite Ha. apply IH. intros a' b Ha' Hb. apply H; [now right | assumption].
Qed.

Lemma merge_rels_empty_sources t bs g : merge_rels t [] bs g = g.
Proof. reflexivity. Qed.

Lemma merge_rels_empty_targets t srcs :
  forall g, merge_rels t srcs [] g = g.
Proof. induction srcs; intros g; simpl; auto. Qed.

(** A node added at the end is a new row exactly when it matches. *)
Lemma match_from_app f ns n :
  forall i, match_from f (ns ++ [n]) i =
            match_from f ns i ++ (if f n then [i + List.length ns] else []).
Proof.
  induction ns as [|x ns IH]; intros i; simpl.
  - rewrite Nat.add_0_r. now destruct (f n).
  - rewrite IH, <- Nat.add_succ_comm. now destruct (f x).
Qed.

Lemma match_from_nth f ns :
  forall i a, In a (match_from f ns i) ->
              exists n, nth_error ns (a - i) = Some n /\ f n = true /\ i <= a.
Proof.
  induction ns as [|x ns IH]; intros i a H; simpl in H; [contradiction|].
  destruct (f x) eqn:Hx.
  - destruct H as [<- | H].
    + exists x. rewrite Nat.sub_diag. auto.
    + apply IH in H as (n & Hn & Hf & Hle). exists n.
      replace (a - i) with (S (a - S i)) by lia. simpl. repeat split; auto; lia.
  - apply IH in H as (n & Hn & Hf & Hle). exists n.
    replace (a - i) with (S (a - S i)) by lia. simpl. repeat split; auto; lia.
Qed.

Lemma match_from_nil f ns :
  forall i, existsb f ns = false -> match_from f ns i = [].
Proof.
  induction ns as [|x ns IH]; intros i H; simpl in *; [reflexivity|].
  apply orb_false_iff in H as [-> H]. now apply IH.
Qed.

End StoreAlgebra.

(* ================================================================== *)
(** * Statements that have nothing left to write *)
(* ================================================================== *)

Section Settling.

Lemma settled_noop q g : settled q g -> run_query q g = g.
Proof.
  destruct q; simpl.
  - unfold entity_exists. now intros ->.
  - intros [_ H]. now apply merge_rels_noop.
  - apply merge_rels_noop.
Qed.

Lemma run_query_nodes q g :
  adds_no_node q = true -> nodes (run_query q g) = nodes g.
Proof.
  destruct q; simpl; try discriminate; intros _; apply merge_rels_nodes.
Qed.

Lemma run_query_nodes_grow q g :
  exists ns, nodes (run_query q g) = nodes g ++ ns.
Proof.
  destruct q; simpl.
  - destruct (existsb _ _); simpl; [exists []; now rewrite app_nil_r | now eexists].
  - exists []. now rewrite merge_rels_nodes, app_nil_r.
  - exists []. now rewrite merge_rels_nodes, app_nil_r.
Qed.

Lemma run_query_rels_grow q g :
  exists rs, rels (run_query q g) = rels g ++ rs.
Proof.
  destruct q; simpl.
  - destruct (existsb _ _); simpl; exists []; now rewrite app_nil_r.
  - apply merge_rels_grows.
  - apply merge_rels_grows.
Qed.

Lemma run_query_keeps_rel q g r :
  In r (rels g) -> In r (rels (run_query q g)).
Proof.
  intros H. destruct (run_query_rels_grow q g) as [rs ->].
  apply in_or_app. now left.
Qed.

Lemma run_query_keeps_entity q g v :
  entity_exists v g = true -> entity_exists v (run_query q g) = true.
Proof.
  unfold entity_exists. intros H.
  destruct (run_query_nodes_grow q g) as [ns ->].
  rewrite existsb_app, H. reflexivity.
Qed.

(** The rows of a [MATCH] change only when a matching node is created. *)
Lemma run_query_same_rows q g f :
  (forall v, q = MergeEntity v -> entity_exists v g = false ->
             f (Entity v) = false) ->
  match_nodes f (run_query q g) = match_nodes f g.
Proof.
  intros H. unfold match_nodes. destruct q; simpl.
  - destruct (existsb _ _) eqn:Hex; [reflexivity|]. simpl.
    rewrite match_from_app, (H name eq_refl Hex). apply app_nil_r.
  - now rewrite merge_rels_nodes.
  - now rewrite merge_rels_nodes.
Qed.

Lemma all_linked_kept t f f' q g :
  match_nodes f (run_query q g) = match_nodes f g ->
  match_nodes f' (run_query q g) = match_nodes f' g ->
  all_linked t (match_nodes f g) (match_nodes f' g) g ->
  all_linked t (match_nodes f (run_query q g)) (match_nodes f' (run_query q g))
    (run_query q g).
Proof.
  intros -> -> H a b Ha Hb. apply has_rel_In, run_query_keeps_rel, has_rel_In.
  now apply H.
Qed.

Lemma entity_row_stable p q g :
  entity_exists p g = true ->
  match_nodes (is_entity_named p) (run_query q g)
  = match_nodes (is_entity_named p) g.
Proof.
  intros Hp. apply run_query_same_rows. intros v -> Hv. simpl.
  destruct (prop_matches p v) eqn:Hm; [|reflexivity].
  apply prop_matches_eq in Hm. subst v. congruence.
Qed.

Lemma episode_row_stable p q g :
  match_nodes (is_episode_named p) (run_query q g)
  = match_nodes (is_episode_named p) g.
Proof. apply run_query_same_rows. intros v _ _. reflexivity. Qed.

(** Node and provenance statements stay settled whatever runs next. *)
Lemma settled_step_node q q' g :
  is_merge_rel q = false -> settled q g -> settled q (run_query q' g).
Proof.
  destruct q; simpl; try discriminate; intros _.
  - apply run_query_keeps_entity.
  - intros [Hv H]. split; [now apply run_query_keeps_entity|].
    apply all_linked_kept; auto using episode_row_stable, entity_row_stable.
Qed.

(** Any statement stays settled as long as no node is created. *)
Lemma settled_step_rel q q' g :
  adds_no_node q' = true -> settled q g -> settled q (run_query q' g).
Proof.
  intros Hq'.
  assert (Hrows : forall f, match_nodes f (run_query q' g) = match_nodes f g).
  { intros f. unfold match_nodes. now rewrite run_query_nodes. }
  destruct q; simpl.
  - apply run_query_keeps_entity.
  - intros [Hv H]. split; [now apply run_query_keeps_entity|].
    now apply all_linked_kept.
  - now apply all_linked_kept.
Qed.

Lemma merge_rels_links t f f' g :
  all_linked t
    (match_nodes f (merge_rels t (match_nodes f g) (match_nodes f' g) g))
    (match_nodes f' (merge_rels t (match_nodes f g) (match_nodes f' g) g))
    (merge_rels t (match_nodes f g) (match_nodes f' g) g).
Proof.
  assert (H : forall h srcs bs,
             match_nodes h (merge_rels t srcs bs g) = match_nodes h g).
  { intros h srcs bs. unfold match_nodes. now rewrite merge_rels_nodes. }
  rewrite !H. intros a b Ha Hb. apply has_rel_In. now apply merge_rels_has.
Qed.

Lemma truthy_matches_itself v : truthy v = true -> prop_matches v v = true.
Proof.
  destruct v; simpl; try discriminate; intros _.
  - now destruct b.
  - apply Z.eqb_refl.
  - apply String.eqb_refl.
  - apply (json_eqb_refl (JArr items)).
  - apply (json_eqb_refl (JObj fields)).
Qed.

Lemma settled_after_entity v g :
  truthy v = true -> settled (MergeEntity v) (run_query (MergeEntity v) g).
Proof.
  intros Hv. simpl. unfold entity_exists.
  destruct (existsb _ (nodes g)) eqn:H; simpl; [exact H|].
  rewrite existsb_app. simpl. rewrite (truthy_matches_itself _ Hv).
  now rewrite !orb_true_r.
Qed.

Lemma settled_after_mentions ep v g :
  entity_exists v g = true ->
  settled (MergeMentions ep v) (run_query (MergeMentions ep v) g).
Proof.
  intros Hv. split.
  - now apply run_query_keeps_entity.
  - apply merge_rels_links.
Qed.

Lemma settled_after_rel t s d g :
  settled (MergeRel t s d) (run_query (MergeRel t s d) g).
Proof. apply merge_rels_links. Qed.

Lemma evolves_trans ok g1 g2 g3 :
  evolves ok g1 g2 -> evolves ok g2 g3 -> evolves ok g1 g3.
Proof.
  intros H12 H23. induction H23; [assumption|].
  apply evolves_step; auto.
Qed.

Lemma evolves_any ok g g' : evolves ok g g' -> evolves any_query g g'.
Proof. induction 1; [constructor | now apply evolves_step]. Qed.

Lemma evolves_one ok q g : ok q = true -> evolves ok g (run_query q g).
Proof. intros H. apply evolves_step; [assumption | constructor]. Qed.

Lemma settled_evolves_node q g g' :
  is_merge_rel q = false -> evolves any_query g g' -> settled q g ->
  settled q g'.
Proof.
  intros Hq Hev Hs. induction Hev; [assumption|].
  apply settled_step_node; auto.
Qed.

Lemma settled_evolves_rel q g g' :
  evolves adds_no_node g g' -> settled q g -> settled q g'.
Proof.
  intros Hev Hs. induction Hev; [assumption|].
  apply settled_step_rel; auto.
Qed.

End Settling.

(* ================================================================== *)
(** * Running a computation again *)
(* ================================================================== *)

Section Rerun.
Context {A B : Type}.
Variable ok : Query -> bool.

Lemma rerunnable_ret (a : A) : rerunnable ok (ret a).
Proof. intros w. split; [constructor | auto]. Qed.

Lemma rerunnable_lift (r : result A) : rerunnable ok (lift r).
Proof. intros w. split; [constructor | auto]. Qed.

Lemma rerunnable_bind (c : M A) (k : A -> M B) :
  rerunnable ok c -> (forall a, rerunnable ok (k a)) -> rerunnable ok (bind c k).
Proof.
  intros Hc Hk w. unfold bind.
  destruct (Hc w) as [Hev Hre]. destruct (c w) as [[a|e] w1] eqn:Hcw; simpl in *.
  - destruct (Hk a w1) as [Hev1 Hre1]. split.
    + eapply evolves_trans; eassumption.
    + intros g2 h2 H2.
      destruct (Hre g2 h2) as [Hf Hg]; [eapply evolves_trans; eassumption|].
      destruct (c (mkWorld g2 h2)) as [r1 [g1' h1']]. simpl in Hf, Hg. subst.
      now apply Hre1.
  - split; [assumption|]. intros g2 h2 H2.
    destruct (Hre g2 h2 H2) as [Hf Hg].
    destruct (c (mkWorld g2 h2)) as [r1 w1']. simpl in Hf, Hg. now subst.
Qed.

End Rerun.

Lemma rerunnable_for_each {A} ok (body : A -> M unit) (l : list A) :
  (forall x, rerunnable ok (body x)) -> rerunnable ok (for_each body l).
Proof.
  intros Hb. induction l as [|x l IH]; simpl.
  - apply rerunnable_ret.
  - apply rerunnable_bind; auto.
Qed.

Import QuickStart.

Section UpsertRerun.
Variable E : Env.

Lemma rerunnable_merge_rel t s d :
  rerunnable adds_no_node (session_run E (MergeRel t s d)).
Proof.
  intros w. unfold session_run. cbv beta iota zeta. cbn [fst snd graph]. split.
  - now apply evolves_one.
  - intros g2 h2 H2.
    assert (Hs : settled (MergeRel t s d) g2).
    { eapply settled_evolves_rel; [eassumption | apply settled_after_rel]. }
    split; [reflexivity|]. now apply settled_noop.
Qed.

Lemma rerunnable_entity_mentions ep name :
  truthy name = true ->
  rerunnable any_query
    (bind (session_run E (MergeEntity name))
          (fun _ => session_run E (MergeMentions ep name))).
Proof.
  intros Hname w. unfold bind, session_run. cbv beta iota zeta.
  destruct (property_fault E name) as [e|] eqn:Hf;
    cbv beta iota zeta; cbn [fst snd graph history].
  - split; [constructor|]. intros g2 h2 _. auto.
  - set (g1 := run_query (MergeEntity name) (graph w)).
    assert (H1 : settled (MergeEntity name) g1)
      by now apply settled_after_entity.
    assert (H2 : settled (MergeMentions ep name)
                   (run_query (MergeMentions ep name) g1))
      by now apply settled_after_mentions.
    split.
    + apply evolves_step; [reflexivity|]. now apply evolves_one.
    + intros g2 h2 Hev.
      assert (H1' : settled (MergeEntity name) g2).
      { eapply settled_evolves_node; [reflexivity | | exact H1].
        eapply evolves_trans; [|exact Hev]. now apply evolves_one. }
      assert (H2' : settled (MergeMentions ep name) g2).
      { eapply settled_evolves_node; [reflexivity | exact Hev | exact H2]. }
      split; [reflexivity|].
      rewrite (settled_noop _ _ H1'). now apply settled_noop.
Qed.

Lemma rerunnable_insert_node ep node :
  rerunnable any_query (insert_node E ep node).
Proof.
  unfold insert_node. apply rerunnable_bind.
  - apply rerunnable_lift.
  - intros name. destruct (truthy name) eqn:Hn.
    + now apply rerunnable_entity_mentions.
    + apply rerunnable_ret.
Qed.

Lemma rerunnable_insert_edge edge :
  rerunnable adds_no_node (insert_edge E edge).
Proof.
  unfold insert_edge.
  repeat (apply rerunnable_bind; [apply rerunnable_lift | intros ?]).
  destruct (negb _).
  - apply rerunnable_ret.
  - apply rerunnable_merge_rel.
Qed.

Lemma rerunnable_insert_nodes sd ep :
  rerunnable any_query (insert_nodes E sd ep).
Proof.
  unfold insert_nodes. apply rerunnable_bind.
  - apply rerunnable_lift.
  - intros ns. apply rerunnable_for_each. apply rerunnable_insert_node.
Qed.

Lemma rerunnable_insert_edges sd :
  rerunnable adds_no_node (insert_edges E sd).
Proof.
  unfold insert_edges. apply rerunnable_bind.
  - apply rerunnable_lift.
  - intros es. apply rerunnable_for_each. apply rerunnable_insert_edge.
Qed.

(** C2.  Upsert is idempotent: run on the store it has just produced,
    with the same structured graph and the same episode name,
    [insert_structured_graph] leaves the store exactly as it is (no
    Entity node, no MENTIONS edge and no typed edge is added a second
    time) and ends the way the first run ended. *)
Theorem insert_structured_graph_idempotent (sd ep : json) (w : World) :
  let once := insert_structured_graph E sd ep w in
  let twice := insert_structured_graph E sd ep (snd once) in
  graph (snd twice) = graph (snd once) /\ fst twice = fst once.
Proof.
  unfold insert_structured_graph, bind. simpl.
  destruct (rerunnable_insert_nodes sd ep w) as [HevN HreN].
  destruct (insert_nodes E sd ep w) as [[[]|e] w1] eqn:HN;
    simpl in *.
  - destruct (rerunnable_insert_edges sd w1) as [HevE HreE].
    destruct (insert_edges E sd w1) as [r [g2 h2]] eqn:HE.
    simpl in *.
    destruct (HreN g2 h2) as [Hf Hg]; [now apply evolves_any in HevE|].
    destruct (insert_nodes E sd ep (mkWorld g2 h2))
      as [r1 [g1' h1']]. simpl in Hf, Hg. subst.
    destruct (HreE g2 h1') as [Hf' Hg']; [constructor|].
    destruct (insert_edges E sd (mkWorld g2 h1')) as [r2 w2'].
    simpl in *. auto.
  - destruct w1 as [g1 h1]. simpl in *.
    destruct (HreN g1 h1) as [Hf Hg]; [constructor|].
    destruct (insert_nodes E sd ep (mkWorld g1 h1)) as [r1 w1'].
    simpl in *. subst. auto.
Qed.

End UpsertRerun.

(* ================================================================== *)
(** * Invariants of a computation *)
(* ================================================================== *)

Section Preserves.
Context {A B : Type}.
Variable I : World -> Prop.

Lemma preserves_ret (a : A) : preserves I (ret a).
Proof. intros w H. exact H. Qed.

Lemma preserves_lift (r : result A) : preserves I (lift r).
Proof. intros w H. exact H. Qed.

Lemma preserves_raise (e : exn) : preserves I (@raise A e).
Proof. intros w H. exact H. Qed.

Lemma preserves_bind (c : M A) (k : A -> M B) :
  preserves I c -> (forall a, preserves I (k a)) -> preserves I (bind c k).
Proof.
  intros Hc Hk w H. unfold bind. specialize (Hc w H).
  destruct (c w) as [[a|e] w1]; simpl in *; [now apply Hk | assumption].
Qed.

(** Binding a pure step: the continuation is entered with its value. *)
Lemma preserves_bind_lift (r : result A) (k : A -> M B) :
  (forall a, r = Ok a -> preserves I (k a)) -> preserves I (bind (lift r) k).
Proof.
  intros Hk w H. unfold bind, lift.
  destruct r as [a|e]; simpl; [now apply (Hk a) | assumption].
Qed.

Lemma preserves_try_catch catches (c : M A) (h : exn -> M A) :
  preserves I c -> (forall e, preserves I (h e)) ->
  preserves I (try_catch catches c h).
Proof.
  intros Hc Hh w H. unfold try_catch. specialize (Hc w H).
  destruct (c w) as [[a|e] w1]; simpl in *; [assumption|].
  destruct (catches e); [now apply Hh | assumption].
Qed.

End Preserves.

Lemma preserves_for_each {A} I (body : A -> M unit) (l : list A) :
  (forall x, preserves I (body x)) -> preserves I (for_each body l).
Proof.
  intros Hb. induction l as [|x l IH]; simpl.
  - apply preserves_ret.
  - apply preserves_bind; auto.
Qed.

Lemma in_allowed_true (v : json) :
  in_allowed v = Ok true -> exists s, v = JStr s /\ isAllowed s = true.
Proof.
  destruct v; simpl; try discriminate. intros [= H]. eauto.
Qed.

Section UpsertInvariant.
Variable E : Env.
Variable I : World -> Prop.

(** [I] survives every well-formed statement, accepted or refused. *)
Hypothesis I_run :
  forall q w, well_formed_query q = true -> I w ->
              I (mkWorld (run_query q (graph w)) (EvRun q :: history w)).
Hypothesis I_refused :
  forall q w, well_formed_query q = true -> I w ->
              I (mkWorld (graph w) (EvRun q :: history w)).

Lemma preserves_session_run q :
  well_formed_query q = true -> preserves I (session_run E q).
Proof.
  intros Hq w H. unfold session_run.
  destruct (match q with MergeEntity v => property_fault E v | _ => None end);
    simpl; auto.
Qed.

Lemma preserves_insert_node ep node : preserves I (insert_node E ep node).
Proof.
  unfold insert_node. apply preserves_bind_lift. intros name _.
  destruct (truthy name) eqn:Hn; [|apply preserves_ret].
  apply preserves_bind; [|intros _]; now apply preserves_session_run.
Qed.

Lemma preserves_insert_edge edge : preserves I (insert_edge E edge).
Proof.
  unfold insert_edge.
  do 3 (apply preserves_bind_lift; intros ? _).
  apply preserves_bind_lift. intros [|] Hal; simpl; [|apply preserves_ret].
  apply in_allowed_true in Hal as [s [-> Hs]].
  now apply preserves_session_run.
Qed.

Lemma preserves_insert_structured_graph sd ep :
  preserves I (insert_structured_graph E sd ep).
Proof.
  unfold insert_structured_graph, insert_nodes, insert_edges.
  apply preserves_bind; [|intros _]; apply preserves_bind_lift; intros l _;
    apply preserves_for_each; intros x.
  - apply preserves_insert_node.
  - apply preserves_insert_edge.
Qed.

End UpsertInvariant.

(* ================================================================== *)
(** * What an upsert can write *)
(* ================================================================== *)

Lemma node_is_grows f i g g' ns :
  nodes g' = nodes g ++ ns -> node_is f i g = true -> node_is f i g' = true.
Proof.
  unfold node_is. intros ->. destruct (nth_error (nodes g) i) eqn:H.
  - rewrite nth_error_app1; [now rewrite H|].
    apply nth_error_Some. congruence.
  - discriminate.
Qed.

Lemma legitimate_edge_grows g0 g g' ns r :
  nodes g' = nodes g ++ ns -> legitimate_edge g0 g r -> legitimate_edge g0 g' r.
Proof.
  intros Hn [H | [(Ht & Ha & Hb) | (Ht & Ha & Hb)]]; [now left | |].
  - right. left. eauto using node_is_grows.
  - right. right. eauto using node_is_grows.
Qed.

Lemma matched_node_is (f k : node -> bool) g a :
  (forall n, f n = true -> k n = true) ->
  In a (match_nodes f g) -> node_is k a g = true.
Proof.
  intros Hfk H. apply match_from_nth in H as (n & Hn & Hf & _).
  rewrite Nat.sub_0_r in Hn. unfold node_is. rewrite Hn. auto.
Qed.

Lemma entity_named_is_entity p n : is_entity_named p n = true -> is_entity n = true.
Proof. now destruct n. Qed.

Lemma episode_named_is_episode p n :
  is_episode_named p n = true -> is_episode n = true.
Proof. now destruct n. Qed.

Lemma run_query_legitimate_edges g0 q g :
  well_formed_query q = true ->
  (forall r, In r (rels g) -> legitimate_edge g0 g r) ->
  forall r, In r (rels (run_query q g)) -> legitimate_edge g0 (run_query q g) r.
Proof.
  intros Hq Hinv r Hr.
  destruct (run_query_nodes_grow q g) as [ns Hns].
  assert (Hold : In r (rels g) -> legitimate_edge g0 (run_query q g) r).
  { intros H. eapply legitimate_edge_grows; eauto. }
  assert (Hrows : forall f k a,
             adds_no_node q = true ->
             (forall n, f n = true -> k n = true) ->
             In a (match_nodes f g) -> node_is k a (run_query q g) = true).
  { intros f k a Hno Hfk Ha. eapply node_is_grows; [exact Hns|].
    eapply matched_node_is; eauto. }
  destruct q; simpl in Hr, Hq.
  - apply Hold. now destruct (existsb _ (nodes g)).
  - apply merge_rels_origin in Hr as [Hr | (Ht & Ha & Hb)]; [now apply Hold|].
    right. left. split; [assumption | split].
    + apply (Hrows (is_episode_named episode_name));
        [reflexivity | apply episode_named_is_episode | assumption].
    + apply (Hrows (is_entity_named entity_name));
        [reflexivity | apply entity_named_is_entity | assumption].
  - apply merge_rels_origin in Hr as [Hr | (Ht & Ha & Hb)]; [now apply Hold|].
    right. right. split; [congruence | split].
    + apply (Hrows (is_entity_named source));
        [reflexivity | apply entity_named_is_entity | assumption].
    + apply (Hrows (is_entity_named target));
        [reflexivity | apply entity_named_is_entity | assumption].
Qed.

Lemma run_query_legitimate_nodes g0 q g :
  well_formed_query q = true ->
  (forall n, In n (nodes g) -> legitimate_node g0 n) ->
  forall n, In n (nodes (run_query q g)) -> legitimate_node g0 n.
Proof.
  intros Hq Hinv n Hn. destruct q; simpl in Hn, Hq.
  - destruct (existsb _ (nodes g)); [now apply Hinv|]. simpl in Hn.
    apply in_app_or in Hn as [Hn | [<- | []]]; [now apply Hinv|].
    right. eauto.
  - rewrite merge_rels_nodes in Hn. now apply Hinv.
  - rewrite merge_rels_nodes in Hn. now apply Hinv.
Qed.

Section UpsertWrites.
Variable E : Env.

(** C1.  Whatever structured graph and episode name are passed to
    [insert_structured_graph], every relationship of the store
    afterwards was there before, or is a provenance (MENTIONS) edge from
    an Episode node to an Entity node, or is an edge between two Entity
    nodes whose type is one of the six of the Relation Vocabulary: no
    typed edge outside the vocabulary is written. *)
Theorem upsert_writes_only_vocabulary (sd ep : json) (w : World) :
  let g' := graph (snd (insert_structured_graph E sd ep w)) in
  Forall (legitimate_edge (graph w) g') (rels g').
Proof.
  cbv zeta. apply Forall_forall.
  apply (preserves_insert_structured_graph E
           (fun w' => forall r, In r (rels (graph w')) ->
                                legitimate_edge (graph w) (graph w') r)).
  - intros q w' Hq H. now apply run_query_legitimate_edges.
  - intros q w' _ H. exact H.
  - intros r Hr. now left.
Qed.

Lemma upsert_nodes_legitimate (sd ep : json) (w : World) :
  Forall (legitimate_node (graph w))
    (nodes (graph (snd (insert_structured_graph E sd ep w)))).
Proof.
  apply Forall_forall.
  apply (preserves_insert_structured_graph E
           (fun w' => forall n, In n (nodes (graph w')) ->
                                legitimate_node (graph w) n)).
  - intros q w' Hq H. now apply run_query_legitimate_nodes.
  - intros q w' _ H. exact H.
  - intros n Hn. now left.
Qed.

End UpsertWrites.

(* ================================================================== *)
(** * Entries that are passed over *)
(* ================================================================== *)

Lemma for_each_app {A} (body : A -> M unit) (l1 l2 : list A) (w : World) :
  for_each body (l1 ++ l2) w
  = bind (for_each body l1) (fun _ => for_each body l2) w.
Proof.
  revert w. induction l1 as [|x l1 IH]; intros w; simpl; [reflexivity|].
  unfold bind. destruct (body x w) as [[[]|e] w1]; [|reflexivity].
  rewrite IH. reflexivity.
Qed.

(** An iteration that leaves the world alone can be dropped. *)
Lemma for_each_drop {A} (body : A -> M unit) (l1 l2 : list A) (x : A) :
  (forall w, body x w = (Ok tt, w)) ->
  forall w, for_each body (l1 ++ x :: l2) w = for_each body (l1 ++ l2) w.
Proof.
  intros Hx w. rewrite !for_each_app. unfold bind.
  destruct (for_each body l1 w) as [[[]|e] w1]; [|reflexivity].
  simpl. unfold bind. now rewrite Hx.
Qed.

Section SkippedNode.
Variable E : Env.

Lemma insert_node_falsy_name ep node name w :
  py_get node "name" JNull = Ok name -> truthy name = false ->
  insert_node E ep node w = (Ok tt, w).
Proof.
  intros Hget Hname. unfold insert_node, bind, lift.
  now rewrite Hget, Hname.
Qed.

(** C10.  Every node of the store after an upsert was there before or
    is an Entity with a truthy (so non-null and non-empty) name.  A node
    entry whose [name] is missing, null or empty is passed over in
    silence: its iteration leaves the world as it is and raises nothing,
    and the upsert of the graph with the entry is, in outcome, store
    and history, the upsert of the graph without it. *)
Theorem falsy_name_node_skipped (sd ep : json) (w : World) :
  Forall (legitimate_node (graph w))
    (nodes (graph (snd (insert_structured_graph E sd ep w)))) /\
  forall (sd' : json) (ns1 ns2 : list json) (node name : json),
    py_get sd "nodes" (JArr []) = Ok (JArr (ns1 ++ node :: ns2)) ->
    py_get sd' "nodes" (JArr []) = Ok (JArr (ns1 ++ ns2)) ->
    py_get sd' "edges" (JArr []) = py_get sd "edges" (JArr []) ->
    py_get node "name" JNull = Ok name ->
    truthy name = false ->
    insert_node E ep node w = (Ok tt, w) /\
    insert_structured_graph E sd ep w = insert_structured_graph E sd' ep w.
Proof.
  split; [apply upsert_nodes_legitimate|].
  intros sd' ns1 ns2 node name Hn Hn' He Hget Hname.
  split; [now apply insert_node_falsy_name with name|].
  unfold insert_structured_graph, insert_nodes, insert_edges.
  rewrite Hn, Hn', He. unfold bind, lift. cbn [rbind py_iter].
  rewrite for_each_drop; [reflexivity|].
  intros w1. now apply insert_node_falsy_name with name.
Qed.

End SkippedNode.

(* ================================================================== *)
(** * Edges whose endpoints are not in the store *)
(* ================================================================== *)

Lemma history_blind_ret {A} (a : A) : history_blind (ret a).
Proof. intros g h1 h2. auto. Qed.

Lemma history_blind_lift {A} (r : result A) : history_blind (lift r).
Proof. intros g h1 h2. auto. Qed.

Lemma history_blind_bind {A B} (c : M A) (k : A -> M B) :
  history_blind c -> (forall a, history_blind (k a)) -> history_blind (bind c k).
Proof.
  intros Hc Hk g h1 h2. unfold bind. destruct (Hc g h1 h2) as [Hf Hg].
  destruct (c (mkWorld g h1)) as [r1 [g1 k1]], (c (mkWorld g h2)) as [r2 [g2 k2]].
  simpl in Hf, Hg. subst r2 g2. destruct r1 as [a|e]; [apply Hk | auto].
Qed.

Lemma history_blind_for_each {A} (body : A -> M unit) (l : list A) :
  (forall x, history_blind (body x)) -> history_blind (for_each body l).
Proof.
  intros Hb. induction l as [|x l IH]; simpl.
  - apply history_blind_ret.
  - apply history_blind_bind; auto.
Qed.

Lemma evolves_same_nodes g g' : evolves adds_no_node g g' -> nodes g' = nodes g.
Proof.
  induction 1 as [|g g' q Hq Hev IH]; [reflexivity|].
  now rewrite run_query_nodes.
Qed.

Lemma match_from_some f ns :
  forall i, existsb f ns = true -> exists a, In a (match_from f ns i).
Proof.
  induction ns as [|x ns IH]; intros i H; simpl in *; [discriminate|].
  destruct (f x); [exists i; now left | now apply IH].
Qed.

Section AbsentEndpoint.
Variable E : Env.

Lemma history_blind_session_run q : history_blind (session_run E q).
Proof.
  intros g h1 h2. unfold session_run.
  now destruct (match q with MergeEntity v => property_fault E v | _ => None end).
Qed.

Lemma history_blind_insert_edge edge : history_blind (insert_edge E edge).
Proof.
  unfold insert_edge.
  repeat (apply history_blind_bind; [apply history_blind_lift | intros ?]).
  destruct (negb _); [apply history_blind_ret | apply history_blind_session_run].
Qed.

Lemma merge_rel_absent_endpoint t s d g :
  entity_exists s g = false \/ entity_exists d g = false ->
  run_query (MergeRel t s d) g = g.
Proof.
  unfold entity_exists, match_nodes. simpl. unfold match_nodes.
  intros [H | H]; rewrite (match_from_nil _ _ _ H).
  - apply merge_rels_empty_sources.
  - apply merge_rels_empty_targets.
Qed.

Lemma insert_edge_sends edge source target rel_type w :
  py_get edge "source" JNull = Ok source ->
  py_get edge "target" JNull = Ok target ->
  py_get edge "type" JNull = Ok rel_type ->
  in_allowed rel_type = Ok true ->
  insert_edge E edge w
  = (Ok tt,
     mkWorld (run_query (MergeRel (py_str E rel_type) source target) (graph w))
       (EvRun (MergeRel (py_str E rel_type) source target) :: history w)).
Proof.
  intros Hs Ht Hr Ha. unfold insert_edge, bind, lift.
  now rewrite Hs, Ht, Hr, Ha.
Qed.

(** C5.  For an edge entry whose type is in the vocabulary:
    (1) if no Entity of the store bears its source name, or none bears
    its target name, the edge statement is sent, raises nothing and
    writes nothing: the store is unchanged;
    (2) if both are there, an edge of that type from an Entity with the
    source name to an Entity with the target name is in the store
    afterwards;
    (3) within an upsert, an edge with an endpoint absent once the nodes
    have been merged affects nothing else: outcome and store are those
    of the upsert of the same graph without that edge. *)
Theorem edge_needs_both_endpoints (edge source target rel_type : json) :
  py_get edge "source" JNull = Ok source ->
  py_get edge "target" JNull = Ok target ->
  py_get edge "type" JNull = Ok rel_type ->
  in_allowed rel_type = Ok true ->
  (forall w,
     entity_exists source (graph w) = false \/
     entity_exists target (graph w) = false ->
     insert_edge E edge w
     = (Ok tt,
        mkWorld (graph w)
          (EvRun (MergeRel (py_str E rel_type) source target) :: history w))) /\
  (forall w,
     entity_exists source (graph w) = true ->
     entity_exists target (graph w) = true ->
     let g' := graph (snd (insert_edge E edge w)) in
     exists a b,
       node_is (is_entity_named source) a g' = true /\
       node_is (is_entity_named target) b g' = true /\
       In (mkRel a (py_str E rel_type) b) (rels g')) /\
  (forall sd sd' es1 es2 ep w,
     py_get sd "edges" (JArr []) = Ok (JArr (es1 ++ edge :: es2)) ->
     py_get sd' "edges" (JArr []) = Ok (JArr (es1 ++ es2)) ->
     py_get sd' "nodes" (JArr []) = py_get sd "nodes" (JArr []) ->
     let merged := graph (snd (insert_nodes E sd ep w)) in
     entity_exists source merged = false \/
     entity_exists target merged = false ->
     fst (insert_structured_graph E sd ep w)
     = fst (insert_structured_graph E sd' ep w) /\
     graph (snd (insert_structured_graph E sd ep w))
     = graph (snd (insert_structured_graph E sd' ep w))).
Proof.
  intros Hs Ht Hr Ha.
  assert (Hsend := fun w => insert_edge_sends edge w Hs Ht Hr Ha).
  split; [|split].
  - intros w Habs. rewrite Hsend. now rewrite merge_rel_absent_endpoint.
  - intros w Hsrc Htgt g'. subst g'. rewrite Hsend. cbn [snd graph].
    set (t := py_str E rel_type).
    destruct (match_from_some (is_entity_named source) (nodes (graph w)) 0 Hsrc)
      as [a Ha'].
    destruct (match_from_some (is_entity_named target) (nodes (graph w)) 0 Htgt)
      as [b Hb'].
    exists a, b.
    assert (Hn : nodes (run_query (MergeRel t source target) (graph w))
                 = nodes (graph w) ++ [])
      by (rewrite app_nil_r; now apply run_query_nodes).
    split; [|split].
    + eapply node_is_grows; [exact Hn|]. now apply matched_node_is with (f := is_entity_named source).
    + eapply node_is_grows; [exact Hn|]. now apply matched_node_is with (f := is_entity_named target).
    + simpl. now apply merge_rels_has.
  - intros sd sd' es1 es2 ep w He He' Hn merged Habs. subst merged.
    unfold insert_structured_graph, bind.
    assert (HN : insert_nodes E sd' ep w = insert_nodes E sd ep w)
      by (unfold insert_nodes; now rewrite Hn).
    rewrite HN.
    destruct (insert_nodes E sd ep w) as [[[]|e] w1]; [|auto].
    cbn [snd] in Habs. unfold insert_edges, bind, lift.
    rewrite He, He'. cbn [rbind py_iter].
    rewrite !for_each_app. unfold bind.
    destruct (@rerunnable_for_each _ adds_no_node (insert_edge E) es1
                (rerunnable_insert_edge E) w1) as [Hev _].
    destruct (for_each (insert_edge E) es1 w1) as [[[]|e] [g2 h2]]; [|auto].
    cbn [snd graph] in Hev. apply evolves_same_nodes in Hev.
    simpl. unfold bind. rewrite Hsend. cbn [graph history].
    rewrite merge_rel_absent_endpoint
      by (unfold entity_exists in *; now rewrite Hev).
    apply (@history_blind_for_each _ (insert_edge E) es2
             history_blind_insert_edge).
Qed.

End AbsentEndpoint.

(* ================================================================== *)
(** * The batch loop *)
(* ================================================================== *)

Section Orchestrator.
Variable E : Env.

Lemma ingest_value name content description ref_time w a w' :
  ingest E name content description ref_time w = (Ok a, w') ->
  exists structured_json, a = success name structured_json.
Proof.
  unfold ingest, after_episode_write, bind.
  destruct (graphiti_add_episode _ _ _ _ _ _ w) as [[[]|e0] w0]; [|discriminate].
  destruct (extract_structured_json E content w0) as [[sj|e1] w1]; [|discriminate].
  destruct ((if truthy sj then insert_structured_graph E sj name else ret tt) w1)
    as [[[]|e2] w2]; [|discriminate].
  unfold ret. intros [= <- _]. now exists sj.
Qed.

(** The [try] of the loop body always hands a dict to [results]. *)
Lemma guarded_ingest_total name content description ref_time w :
  exists r,
    fst (try_catch any_exception
           (ingest E name content description ref_time)
           (ingest_failed E name) w) = Ok r /\
    ((exists sj, r = success name sj) \/ (exists e, r = failure E name e)).
Proof.
  unfold try_catch.
  destruct (ingest E name content description ref_time w) as [[a|e] w1] eqn:H.
  - exists a. split; [reflexivity|]. left. eapply ingest_value; eauto.
  - exists (failure E name e). split; [reflexivity|]. right. now exists e.
Qed.

Lemma parse_reference_time_none rt now now' :
  parse_reference_time E rt now = None -> parse_reference_time E rt now' = None.
Proof.
  unfold parse_reference_time. now destruct (truthy rt).
Qed.

Lemma process_episode_outcome ep w :
  is_dict ep = true ->
  exists r, fst (process_episode E ep w) = Ok r /\ outcome_of E ep r.
Proof.
  destruct ep as [| | | | |fields]; try discriminate. intros _.
  unfold process_episode, bind, lift. cbn [py_get].
  set (name := match assoc "name" fields with Some v => v | None => JNull end).
  set (content := match assoc "content" fields with Some v => v | None => JNull end).
  set (description := match assoc "description" fields with Some v => v | None => JStr "" end).
  set (rt := match assoc "reference_time" fields with Some v => v | None => JNull end).
  destruct (truthy name) eqn:Hn; cbn [negb orb].
  2:{ exists missing_error. split; [reflexivity|].
      eapply outcome_missing; [reflexivity | reflexivity | now left]. }
  destruct (truthy content) eqn:Hc; cbn [negb orb].
  2:{ exists missing_error. split; [reflexivity|].
      eapply outcome_missing; [reflexivity | reflexivity | now right]. }
  assert (Hv : validated (JObj fields) name content) by (repeat split; assumption).
  unfold now_utc, bind, past, emit, ret. cbn [fst snd graph history].
  destruct (parse_reference_time E rt (utcnow E (history w))) as [ref|] eqn:Hp.
  - destruct (guarded_ingest_total name content description ref
                (mkWorld (graph w) (EvNow (utcnow E (history w)) :: history w)))
      as [r [Hr Hshape]].
    exists r. split; [exact Hr|].
    destruct Hshape as [[sj ->] | [e ->]].
    + eapply outcome_success; [exact Hv | reflexivity | exact Hp].
    + eapply outcome_failure; [exact Hv | reflexivity | exact Hp].
  - exists (invalid_time_error E name). split; [reflexivity|].
    apply outcome_invalid_time with (content := content) (reference_time := rt).
    + exact Hv.
    + reflexivity.
    + intros now. eapply parse_reference_time_none; eauto.
Qed.

Lemma process_all_spec episodes :
  forall acc w,
    Forall (fun ep => is_dict ep = true) episodes ->
    exists outs,
      process_all E episodes acc w = (Ok (acc ++ outs), world_after E episodes w) /\
      Forall2 (outcome_of E) episodes outs /\
      forall k ep,
        nth_error episodes k = Some ep ->
        exists r,
          nth_error outs k = Some r /\
          fst (process_episode E ep (world_after E (firstn k episodes) w)) = Ok r.
Proof.
  induction episodes as [|ep0 rest IH]; intros acc w Hd.
  - exists []. simpl. rewrite app_nil_r. repeat split; [constructor|].
    intros [|k] ep; discriminate.
  - inversion Hd as [|? ? Hd0 Hrest]; subst.
    destruct (@process_episode_outcome ep0 w Hd0) as [r0 [Hr0 Ho0]].
    destruct (IH (acc ++ [r0]) (snd (process_episode E ep0 w)) Hrest)
      as [outs (Hrun & Hshape & Hnth)].
    exists (r0 :: outs). split; [|split].
    + simpl. unfold bind.
      destruct (process_episode E ep0 w) as [r w1]. simpl in Hr0. subst r.
      simpl in Hrun. rewrite Hrun. now rewrite <- app_assoc.
    + now constructor.
    + intros [|k] ep Hk; simpl in Hk.
      * injection Hk as <-. exists r0. now split.
      * destruct (Hnth k ep Hk) as [r [Hr Hfst]]. exists r. now split.
Qed.

(** For a batch of N requests, each of them a JSON object, the loop of
    [add_episodes] goes through all of them and answers 200 with
    exactly N results; result k is what the loop body returns for
    request k, run in the world left by requests 0..k-1.  On a JSON
    object no failure of an episode (validation, time parsing, episode
    write, extraction, upsert) escapes the body, so none stops the
    requests after it. *)
Theorem batch_is_sequential_and_total (episodes : list json) (w : World) :
  Forall (fun ep => is_dict ep = true) episodes ->
  exists results,
    add_episodes E (JArr episodes) w
    = (Ok (mkResponse 200 (JArr results)), world_after E episodes w) /\
    List.length results = List.length episodes /\
    forall k ep,
      nth_error episodes k = Some ep ->
      exists r,
        nth_error results k = Some r /\
        fst (process_episode E ep (world_after E (firstn k episodes) w)) = Ok r.
Proof.
  intros Hd. destruct (process_all_spec [] w Hd) as [outs (Hrun & Hshape & Hnth)].
  exists outs. split; [|split].
  - unfold add_episodes, bind. now rewrite Hrun.
  - symmetry. eapply Forall2_length; eauto.
  - exact Hnth.
Qed.

(** The [name] field is there exactly for the requests that reached the
    [try] block. *)
Lemma outcome_name_field ep r :
  outcome_of E ep r -> (py_contains "name" r = Ok true <-> reaches_write E ep).
Proof.
  intros [name content Hn Hc Hfalsy
         | name content rt Hv Hr Hp
         | name content rt now ref sj Hv Hr Hp
         | name content rt now ref e Hv Hr Hp].
  - split; [discriminate|].
    intros (n & c & _ & _ & _ & (Hn' & Hc' & Htn & Htc) & _).
    rewrite Hn in Hn'. rewrite Hc in Hc'.
    injection Hn' as <-. injection Hc' as <-.
    destruct Hfalsy; congruence.
  - split; [discriminate|].
    intros (n & c & rt' & now & ref & _ & Hr' & Hp').
    rewrite Hr in Hr'. injection Hr' as <-. rewrite Hp in Hp'. discriminate.
  - split; [intros _ | reflexivity].
    now exists name, content, rt, now, ref.
  - split; [intros _ | reflexivity].
    now exists name, content, rt, now, ref.
Qed.

(** C8, as amended.  For a batch of requests, each a JSON object, the
    response array pairs every request with one of: the fixed error
    [{error: Missing name or content for one episode}], without a name
    field, when name or content is missing or empty; the error
    [{error: Invalid reference_time for episode: <name>}], whose text
    quotes the name but which has no name field, when the reference time
    does not parse; and, for a request that passed both checks, a dict
    with the [name] field and either the success message and the
    structured graph or the error detail.  So a result has the [name]
    field exactly when its request passed both checks. *)
Theorem batch_outcomes_shape (episodes : list json) (w : World) :
  Forall (fun ep => is_dict ep = true) episodes ->
  exists results,
    fst (add_episodes E (JArr episodes) w) = Ok (mkResponse 200 (JArr results)) /\
    Forall2
      (fun ep r =>
         outcome_of E ep r /\
         (py_contains "name" r = Ok true <-> reaches_write E ep))
      episodes results.
Proof.
  intros Hd. destruct (process_all_spec [] w Hd) as [outs (Hrun & Hshape & _)].
  exists outs. split.
  - unfold add_episodes, bind. now rewrite Hrun.
  - clear Hrun Hd. induction Hshape as [|ep r eps rs Ho Hrest IH]; constructor.
    + split; [exact Ho | now apply outcome_name_field].
    + exact IH.
Qed.

(** C6.  A request whose name or content is missing or empty (falsy) is
    answered with the missing-name-or-content error and leaves the world
    untouched: the store is the same and the history has no new entry,
    so neither the episode write, nor the LLM, nor any Cypher statement
    was invoked for it. *)
Theorem missing_name_or_content_fails (ep name content : json) (w : World) :
  py_get ep "name" JNull = Ok name ->
  py_get ep "content" JNull = Ok content ->
  truthy name = false \/ truthy content = false ->
  process_episode E ep w = (Ok missing_error, w).
Proof.
  intros Hn Hc Hfalsy. destruct ep as [| | | | |fields]; try discriminate.
  unfold process_episode, bind, lift. rewrite Hn, Hc. cbn [py_get].
  destruct Hfalsy as [-> | ->]; [reflexivity|].
  now rewrite orb_true_r.
Qed.

End Orchestrator.

(* ================================================================== *)
(** * The store and the history only grow *)
(* ================================================================== *)

Lemma extends_refl w : extends w w.
Proof. repeat split; exists []; now rewrite ?app_nil_r. Qed.

Lemma extends_trans w1 w2 w3 : extends w1 w2 -> extends w2 w3 -> extends w1 w3.
Proof.
  intros ([e1 H1] & [n1 N1] & [r1 R1]) ([e2 H2] & [n2 N2] & [r2 R2]).
  repeat split.
  - exists (e2 ++ e1). now rewrite H2, H1, app_assoc.
  - exists (n1 ++ n2). now rewrite N2, N1, app_assoc.
  - exists (r1 ++ r2). now rewrite R2, R1, app_assoc.
Qed.

Lemma extends_event w ev : extends w (mkWorld (graph w) (ev :: history w)).
Proof.
  repeat split; simpl; [now exists [ev] | |]; exists []; now rewrite app_nil_r.
Qed.

Lemma extends_run w q :
  extends w (mkWorld (run_query q (graph w)) (EvRun q :: history w)).
Proof.
  repeat split; simpl.
  - now exists [EvRun q].
  - apply run_query_nodes_grow.
  - apply run_query_rels_grow.
Qed.

Section Grows.
Variable E : Env.
Variable w0 : World.

Lemma grows_emit ev : preserves (extends w0) (emit ev).
Proof. intros w H. eapply extends_trans; [exact H | apply extends_event]. Qed.

Lemma grows_past : preserves (extends w0) past.
Proof. intros w H. exact H. Qed.

Lemma grows_extract text : preserves (extends w0) (extract_structured_json E text).
Proof.
  unfold extract_structured_json, create_completion, log.
  apply preserves_bind.
  - apply preserves_bind; [apply grows_past | intros h].
    apply preserves_bind; [apply grows_emit | intros _; apply preserves_lift].
  - intros txt. apply preserves_bind; [apply grows_emit | intros _].
    apply preserves_try_catch.
    + apply preserves_bind; intros; apply preserves_lift.
    + intros e. apply preserves_bind; [apply grows_emit | intros _].
      apply preserves_ret.
Qed.

Lemma grows_insert sd ep :
  preserves (extends w0) (insert_structured_graph E sd ep).
Proof.
  apply preserves_insert_structured_graph; intros q w _ H;
    (eapply extends_trans; [exact H|]); [apply extends_run | apply extends_event].
Qed.

Lemma grows_ingest_failed name e : preserves (extends w0) (ingest_failed E name e).
Proof.
  unfold ingest_failed, log.
  apply preserves_bind; [apply grows_emit | intros _; apply preserves_ret].
Qed.

Lemma grows_after_episode_write name content :
  preserves (extends w0) (after_episode_write E name content).
Proof.
  unfold after_episode_write.
  apply preserves_bind; [apply grows_extract | intros sj].
  apply preserves_bind; [|intros _; apply preserves_ret].
  destruct (truthy sj); [apply grows_insert | apply preserves_ret].
Qed.

End Grows.

(* ================================================================== *)
(** * Reference time *)
(* ================================================================== *)

Section ReferenceTime.
Variable E : Env.

Lemma guarded_rest_grows name content w :
  extends w
    (snd (try_catch any_exception (after_episode_write E name content)
            (ingest_failed E name) w)).
Proof.
  apply (@preserves_try_catch _ (extends w)).
  - apply grows_after_episode_write.
  - intros e. apply grows_ingest_failed.
  - apply extends_refl.
Qed.

(** The guarded [try] block, split at the episode write. *)
Lemma guarded_ingest_unfold name content description ref_time w :
  try_catch any_exception (ingest E name content description ref_time)
    (ingest_failed E name) w
  = match graphiti_add_episode E name content text description ref_time w with
    | (Ok _, w') =>
        try_catch any_exception (after_episode_write E name content)
          (ingest_failed E name) w'
    | (Raise e, w') => ingest_failed E name e w'
    end.
Proof.
  unfold try_catch, ingest, bind.
  now destruct (graphiti_add_episode E name content text description ref_time w)
    as [[[]|e] w'].
Qed.

Lemma process_episode_validated ep name content description rt w :
  validated ep name content ->
  py_get ep "description" (JStr "") = Ok description ->
  py_get ep "reference_time" JNull = Ok rt ->
  process_episode E ep w
  = let now := utcnow E (history w) in
    let w1 := mkWorld (graph w) (EvNow now :: history w) in
    match parse_reference_time E rt now with
    | None => (Ok (invalid_time_error E name), w1)
    | Some ref_time =>
        try_catch any_exception (ingest E name content description ref_time)
          (ingest_failed E name) w1
    end.
Proof.
  intros (Hn & Hc & Htn & Htc) Hd Hr.
  unfold process_episode, bind, lift. rewrite Hn, Hc, Hd, Hr, Htn, Htc.
  cbn [negb orb]. unfold now_utc, bind, past, emit, ret. cbn [fst snd graph history].
  now destruct (parse_reference_time E rt (utcnow E (history w))).
Qed.

(** C7, as amended.  For a request that passed validation: (1) if its
    reference_time is a non-empty string that [fromisoformat] rejects,
    the answer is the invalid-reference_time error and nothing further
    runs: the store is unchanged and the only new entry of the history
    is the reading of the clock; (2) if its reference_time is absent,
    null or empty, the episode write is issued with the UTC time read
    from the clock in this iteration, and, unless the engine raises, the
    episode is stored with that timestamp. *)
Theorem reference_time_handling (ep name content description rt : json)
    (w : World) :
  validated ep name content ->
  py_get ep "description" (JStr "") = Ok description ->
  py_get ep "reference_time" JNull = Ok rt ->
  let now := utcnow E (history w) in
  (forall s,
     rt = JStr s -> s <> "" -> fromisoformat E s = None ->
     process_episode E ep w
     = (Ok (invalid_time_error E name),
        mkWorld (graph w) (EvNow now :: history w))) /\
  (truthy rt = false ->
   let w' := snd (process_episode E ep w) in
   (exists evs,
      history w'
      = evs ++ [EvAddEpisode name content text description now; EvNow now]
            ++ history w) /\
   (add_episode_fault E (EvNow now :: history w) name content text
      description now = None ->
    In (Episode name content text description now) (nodes (graph w')))).
Proof.
  intros Hv Hd Hr now.
  rewrite (process_episode_validated w Hv Hd Hr). cbv zeta. fold now. split.
  - intros s -> Hs Hiso. unfold parse_reference_time. cbn [truthy].
    apply String.eqb_neq in Hs. now rewrite Hs, Hiso.
  - intros Hrt. unfold parse_reference_time. rewrite Hrt.
    rewrite guarded_ingest_unfold. unfold graphiti_add_episode.
    cbn [graph history].
    destruct (add_episode_fault E (EvNow now :: history w) name content text
                description now) as [e|].
    + split; [|discriminate].
      now exists [EvLog (LogEpisodeError name e)].
    + match goal with
      | |- context [try_catch _ _ _ ?w2] =>
          destruct (guarded_rest_grows name content w2)
            as ([evs Hh] & [ns Hns] & _)
      end.
      cbn [graph history nodes] in Hh, Hns. split.
      * exists evs. exact Hh.
      * intros _. rewrite Hns. apply in_or_app. left.
        apply in_or_app. right. now left.
Qed.

End ReferenceTime.

(* ================================================================== *)
(** * An LLM answer that is not JSON *)
(* ================================================================== *)

Section ParseFailure.
Variable E : Env.



End ParseFailure.

(* ================================================================== *)
(** * Search *)
(* ================================================================== *)

Section SearchFailure.
Import GrafityMain.
Variable E : Env.
Variable S : SearchEnv.

Lemma search_graphiti_on_failure query e w :
  graphiti_search S (EvLog (LogSearchQuery query) :: history w) query = Raise e ->
  search_graphiti E S query w
  = (Raise (PlainException ("Graphiti search failed: " ++ str_exn E e)%string),
     mkWorld (graph w)
       (EvLog (LogSearchFailure e) :: EvSearch query
        :: EvLog (LogSearchQuery query) :: history w)).
Proof.
  intros Hs. unfold search_graphiti, search_call, try_catch, log.
  unfold bind, past, emit, lift, ret, raise. cbn [fst snd graph history].
  now rewrite Hs.
Qed.

Lemma search_api_total request_data w :
  exists r,
    fst (search_graphiti_api E S request_data w) = Ok r /\
    (r = generic_failure \/
     exists results, r = mkResponse 200 (JArr (map result_dict results))).
Proof.
  unfold search_graphiti_api, try_catch.
  match goal with
  | |- context [match ?c w with _ => _ end] => destruct (c w) as [[a|e] w1] eqn:Hc
  end.
  - exists a. split; [reflexivity|]. right.
    unfold bind in Hc.
    destruct (log (LogRequestData request_data) w) as [[[]|e3] w4]; [|discriminate].
    destruct (lift (SearchRequest request_data) w4) as [[q|e0] w0]; [|discriminate].
    destruct (connect S w0) as [[[]|e1] w2]; [|discriminate].
    destruct (search_graphiti E S q w2) as [[rs|e2] w3]; [|discriminate].
    unfold ret in Hc. injection Hc as <- _. now exists rs.
  - exists generic_failure. split; [reflexivity | now left].
Qed.

Lemma search_api_on_failure query e request_data w :
  let h := EvLog (LogRequestData request_data) :: history w in
  let wrapped :=
    PlainException ("Graphiti search failed: " ++ str_exn E e)%string in
  SearchRequest request_data = Ok query ->
  connect_fault S h = None ->
  graphiti_search S (EvLog (LogSearchQuery query) :: EvConnect :: h) query
  = Raise e ->
  search_graphiti_api E S request_data w
  = (Ok generic_failure,
     mkWorld (graph w)
       (EvLog (LogTraceback wrapped) :: EvLog (LogRequestFailure wrapped)
        :: EvLog (LogSearchFailure e) :: EvSearch query
        :: EvLog (LogSearchQuery query) :: EvConnect :: h)).
Proof.
  intros h wrapped Hreq Hconn Hs.
  unfold search_graphiti_api, try_catch, connect, log.
  unfold bind, past, emit, lift, ret. cbn [fst snd graph history].
  fold h. rewrite Hreq, Hconn.
  now rewrite (@search_graphiti_on_failure query e
                 (mkWorld (graph w) (EvConnect :: h)) Hs).
Qed.

(** C9.  (1) When [graphiti.search] raises, [search_graphiti] raises an
    exception whose message carries the cause and returns no result
    list; (2) the endpoint then answers 500 with the fixed detail
    message, which depends neither on the cause nor on any result, and
    the store is untouched; (3) whatever the request, the endpoint
    answers either the full list with 200 or that same fixed 500
    body. *)
Theorem search_failure_is_generic (query : string) (e : exn) :
  (forall w,
     graphiti_search S (EvLog (LogSearchQuery query) :: history w) query
     = Raise e ->
     fst (search_graphiti E S query w)
     = Raise (PlainException ("Graphiti search failed: " ++ str_exn E e)%string)) /\
  (forall request_data w,
     let h := EvLog (LogRequestData request_data) :: history w in
     SearchRequest request_data = Ok query ->
     connect_fault S h = None ->
     graphiti_search S (EvLog (LogSearchQuery query) :: EvConnect :: h) query
     = Raise e ->
     fst (search_graphiti_api E S request_data w) = Ok generic_failure /\
     graph (snd (search_graphiti_api E S request_data w)) = graph w) /\
  (forall request_data w,
     exists r,
       fst (search_graphiti_api E S request_data w) = Ok r /\
       (r = generic_failure \/
        exists results, r = mkResponse 200 (JArr (map result_dict results)))).
Proof.
  split; [|split].
  - intros w Hs. now rewrite (@search_graphiti_on_failure query e w Hs).
  - intros request_data w h Hreq Hconn Hs.
    now rewrite (search_api_on_failure request_data w Hreq Hconn Hs).
  - apply search_api_total.
Qed.

End SearchFailure.

(* ================================================================== *)
(** * The results on concrete requests *)
(* ================================================================== *)

Section Concrete.
Import Demo.

(** The end-to-end example: three entities, their provenance edges, one
    [practices] edge; the [mentions_on] edge is dropped. *)
Example end_to_end :
  let run := add_episodes env (JArr [ep1]) empty_world in
  fst run
  = Ok (mkResponse 200
          (JArr [success (JStr "Ep1")
                   (JObj [("nodes", JArr [named "Alice"; named "Yoga"; named "Monday"]);
                          ("edges", JArr [edge "Alice" "Yoga" "practices"])])])) /\
  graph (snd run)
  = mkGraph
      [Episode (JStr "Ep1") (JStr "Alice practices yoga on Monday.") text
         (JStr "") 1700000000%Z;
       Entity (JStr "Alice"); Entity (JStr "Yoga"); Entity (JStr "Monday")]
      [mkRel 0 MENTIONS 1; mkRel 0 MENTIONS 2; mkRel 0 MENTIONS 3;
       mkRel 1 "practices" 2].
Proof. vm_compute. split; reflexivity. Qed.

(** A request with an empty reference_time: the string is supplied and
    [fromisoformat] rejects it, yet the episode is not failed: it is
    written with the time of the clock and succeeds. *)
Lemma empty_reference_time_is_not_rejected :
  py_get ep_empty_time "reference_time" JNull = Ok (JStr "") /\
  fromisoformat env "" = None /\
  fst (process_episode env ep_empty_time empty_world)
  = Ok (success (JStr "Ep3") (JObj [])) /\
  fst (process_episode env ep_empty_time empty_world)
  <> Ok (invalid_time_error env (JStr "Ep3")) /\
  nodes (graph (snd (process_episode env ep_empty_time empty_world)))
  = [Episode (JStr "Ep3") pushups text (JStr "") 1700000000%Z].
Proof.
  vm_compute. repeat split; try reflexivity. discriminate.
Qed.

(** Two results of a batch that have no [name] field: the one of a
    request without a name and the one of a request whose reference
    time does not parse. *)
Lemma outcome_without_name_field :
  fst (add_episodes env (JArr [ep_no_name; ep_bad_time]) empty_world)
  = Ok (mkResponse 200
          (JArr [missing_error; invalid_time_error env (JStr "Ep4")])) /\
  py_contains "name" missing_error = Ok false /\
  py_contains "name" (invalid_time_error env (JStr "Ep4")) = Ok false.
Proof. vm_compute. repeat split; reflexivity. Qed.

(** The upsert of the end-to-end graph, run twice over a store that
    holds the episode: the second run adds nothing. *)
Example upsert_twice :
  let once := insert_structured_graph env alice_graph (JStr "Ep1") world_ep1 in
  let twice := insert_structured_graph env alice_graph (JStr "Ep1") (snd once) in
  graph (snd once)
  = mkGraph
      [Episode (JStr "Ep1") (JStr "Alice practices yoga on Monday.") text
         (JStr "") 1700000000%Z;
       Entity (JStr "Alice"); Entity (JStr "Yoga"); Entity (JStr "Monday")]
      [mkRel 0 MENTIONS 1; mkRel 0 MENTIONS 2; mkRel 0 MENTIONS 3;
       mkRel 1 "practices" 2] /\
  graph (snd twice) = graph (snd once).
Proof. vm_compute. split; reflexivity. Qed.

Lemma batch_is_sequential_and_total_witness :
  Forall (fun ep => is_dict ep = true) batch /\
  exists results,
    add_episodes env (JArr batch) empty_world
    = (Ok (mkResponse 200 (JArr results)), world_after env batch empty_world) /\
    List.length results = List.length batch /\
    forall k ep,
      nth_error batch k = Some ep ->
      exists r,
        nth_error results k = Some r /\
        fst (process_episode env ep (world_after env (firstn k batch) empty_world))
        = Ok r.
Proof.
  split; [repeat constructor|].
  apply (@batch_is_sequential_and_total env batch empty_world).
  repeat constructor.
Defined.

Lemma batch_outcomes_shape_witness :
  Forall (fun ep => is_dict ep = true) batch /\
  exists results,
    fst (add_episodes env (JArr batch) empty_world)
    = Ok (mkResponse 200 (JArr results)) /\
    Forall2
      (fun ep r =>
         outcome_of env ep r /\
         (py_contains "name" r = Ok true <-> reaches_write env ep))
      batch results.
Proof.
  split; [repeat constructor|].
  apply (@batch_outcomes_shape env batch empty_world).
  repeat constructor.
Defined.

Lemma missing_name_or_content_fails_witness :
  py_get ep_no_name "name" JNull = Ok JNull /\
  truthy JNull = false /\
  process_episode env ep_no_name empty_world = (Ok missing_error, empty_world).
Proof.
  split; [reflexivity | split; [reflexivity|]].
  apply (@missing_name_or_content_fails env ep_no_name JNull pushups empty_world);
    [reflexivity | reflexivity | left; reflexivity].
Defined.


Lemma edge_needs_both_endpoints_witness :
  in_allowed (JStr "practices") = Ok true /\
  entity_exists (JStr "Zumba")
    (graph (snd (insert_nodes env graph_with_dangling (JStr "Ep1") world_ep1)))
  = false /\
  fst (insert_structured_graph env graph_with_dangling (JStr "Ep1") world_ep1)
  = fst (insert_structured_graph env graph_without_dangling (JStr "Ep1") world_ep1) /\
  graph (snd (insert_structured_graph env graph_with_dangling (JStr "Ep1") world_ep1))
  = graph (snd (insert_structured_graph env graph_without_dangling (JStr "Ep1")
                  world_ep1)).
Proof.
  split; [reflexivity | split; [reflexivity|]].
  apply (proj2 (proj2 (@edge_needs_both_endpoints env
                         (edge "Alice" "Zumba" "practices")
                         (JStr "Alice") (JStr "Zumba") (JStr "practices")
                         eq_refl eq_refl eq_refl eq_refl))
           graph_with_dangling graph_without_dangling
           [] [edge "Alice" "Yoga" "practices"] (JStr "Ep1") world_ep1);
    [reflexivity | reflexivity | reflexivity | right; reflexivity].
Defined.

Lemma reference_time_handling_witness :
  validated ep_bad_time (JStr "Ep4") pushups /\
  fromisoformat env "yesterday" = None /\
  process_episode env ep_bad_time empty_world
  = (Ok (invalid_time_error env (JStr "Ep4")),
     mkWorld (graph empty_world) [EvNow 1700000000%Z]).
Proof.
  split; [repeat split | split; [reflexivity|]].
  apply (proj1 (@reference_time_handling env ep_bad_time (JStr "Ep4") pushups
                  (JStr "") (JStr "yesterday") empty_world
                  (conj eq_refl (conj eq_refl (conj eq_refl eq_refl)))
                  eq_refl eq_refl)
           "yesterday");
    [reflexivity | discriminate | reflexivity].
Defined.

Lemma falsy_name_node_skipped_witness :
  py_get (named "") "name" JNull = Ok (JStr "") /\
  truthy (JStr "") = false /\
  insert_node env (JStr "Ep1") (named "") world_ep1 = (Ok tt, world_ep1) /\
  insert_structured_graph env graph_with_blank (JStr "Ep1") world_ep1
  = insert_structured_graph env graph_without_blank (JStr "Ep1") world_ep1.
Proof.
  split; [reflexivity | split; [reflexivity|]].
  apply (proj2 (@falsy_name_node_skipped env graph_with_blank (JStr "Ep1")
                  world_ep1)
           graph_without_blank [named "Alice"] [named "Yoga"] (named "")
           (JStr "")); reflexivity.
Defined.

Lemma search_failure_is_generic_witness :
  GrafityMain.SearchRequest (JObj [("query", JStr "sleep")]) = Ok "sleep" /\
  GrafityMain.graphiti_search search_env
    [EvLog (LogSearchQuery "sleep"); EvConnect;
     EvLog (LogRequestData (JObj [("query", JStr "sleep")]))] "sleep"
  = Raise refused /\
  fst (GrafityMain.search_graphiti_api env search_env
         (JObj [("query", JStr "sleep")]) empty_world)
  = Ok GrafityMain.generic_failure /\
  graph (snd (GrafityMain.search_graphiti_api env search_env
                (JObj [("query", JStr "sleep")]) empty_world))
  = graph empty_world.
Proof.
  split; [reflexivity | split; [reflexivity|]].
  apply (proj1 (proj2 (@search_failure_is_generic env search_env "sleep" refused))
           (JObj [("query", JStr "sleep")]) empty_world);
    reflexivity.
Defined.

End Concrete.

(* ================================================================== *)
(** * The extractor's filter *)
(* ================================================================== *)

Lemma assoc_set_field_same k x l : assoc k (set_field k x l) = Some x.
Proof.
  induction l as [|[k' v] l IH]; simpl.
  - now rewrite String.eqb_refl.
  - destruct (String.eqb k k') eqn:Hk; simpl; rewrite Hk; [reflexivity | exact IH].
Qed.

Lemma assoc_set_field_other k k' x l :
  k <> k' -> assoc k (set_field k' x l) = assoc k l.
Proof.
  intros Hne. induction l as [|[k0 v] l IH]; simpl.
  - apply String.eqb_neq in Hne. now rewrite Hne.
  - destruct (String.eqb k' k0) eqn:Hk; simpl.
    + apply String.eqb_eq in Hk. subst k0.
      apply String.eqb_neq in Hne. now rewrite Hne.
    + now rewrite IH.
Qed.

Lemma set_field_twice k x l : set_field k x (set_field k x l) = set_field k x l.
Proof.
  induction l as [|[k' v] l IH]; simpl.
  - now rewrite String.eqb_refl.
  - destruct (String.eqb k k') eqn:Hk; simpl; rewrite Hk; [reflexivity|].
    now rewrite IH.
Qed.

(** What the comprehension decides for an entry it gets through. *)
Lemma in_allowed_edge_kept edge t keep :
  py_get edge "type" JNull = Ok t -> in_allowed t = Ok keep ->
  edge_kept edge = keep.
Proof.
  intros Ht Hk. unfold edge_kept. rewrite Ht.
  destruct t; simpl in Hk; try discriminate; congruence.
Qed.

Lemma keep_allowed_filter es :
  forall kept, keep_allowed es = Ok kept ->
               kept = filter edge_kept es /\ Forall edge_accepted es.
Proof.
  induction es as [|e es IH]; simpl; intros kept H.
  - injection H as <-. split; constructor.
  - destruct (py_get e "type" JNull) as [t|] eqn:Ht; [|discriminate].
    cbn [rbind] in H.
    destruct (in_allowed t) as [keep|] eqn:Hk; [|discriminate].
    cbn [rbind] in H.
    destruct (keep_allowed es) as [rest|]; [|discriminate].
    destruct (IH rest eq_refl) as [-> Hall]. cbn [rbind] in H.
    injection H as <-.
    rewrite (in_allowed_edge_kept e Ht Hk). split; [reflexivity|].
    constructor; [now exists t, keep | exact Hall].
Qed.

Lemma keep_allowed_accepted es :
  Forall edge_accepted es -> keep_allowed es = Ok (filter edge_kept es).
Proof.
  induction 1 as [|e es (t & keep & Ht & Hk) Hall IH]; [reflexivity|].
  simpl. rewrite Ht. simpl. rewrite Hk. simpl. rewrite IH. simpl.
  now rewrite (in_allowed_edge_kept e Ht Hk).
Qed.

Lemma edge_accepted_filter es :
  Forall edge_accepted es -> Forall edge_accepted (filter edge_kept es).
Proof.
  intros H. apply Forall_forall. intros e He.
  apply filter_In in He as [He _]. revert e He. now apply Forall_forall.
Qed.

Lemma filter_edge_kept_twice es :
  filter edge_kept (filter edge_kept es) = filter edge_kept es.
Proof.
  induction es as [|e es IH]; [reflexivity|]. simpl.
  destruct (edge_kept e) eqn:He; [|exact IH]. simpl. now rewrite He, IH.
Qed.

(** The extractor's filter on a dict that has an [edges] key: when it
    returns, the edges it leaves are exactly the entries whose type is a
    str of the vocabulary, in their order, every entry it met was a dict
    with a hashable type, and no other key has changed. *)
Theorem filter_relationships_result (fields : list (string * json))
    (edges : json) (es : list json) (sd' : json) :
  assoc "edges" fields = Some edges ->
  py_iter edges = Ok es ->
  filter_relationships (JObj fields) = Ok sd' ->
  sd' = JObj (set_field "edges" (JArr (filter edge_kept es)) fields) /\
  py_get sd' "edges" (JArr []) = Ok (JArr (filter edge_kept es)) /\
  Forall (fun e => edge_kept e = true) (filter edge_kept es) /\
  Forall edge_accepted es /\
  forall k default,
    k <> "edges" -> py_get sd' k default = py_get (JObj fields) k default.
Proof.
  intros Hedges Hiter. unfold filter_relationships. cbn [py_contains py_getitem rbind].
  rewrite Hedges. cbn [rbind]. rewrite Hiter. cbn [rbind].
  destruct (keep_allowed es) as [kept|] eqn:Hk; [|discriminate].
  destruct (keep_allowed_filter es Hk) as [-> Hall].
  cbn [rbind py_setitem]. intros [= <-]. repeat split.
  - cbn [py_get]. now rewrite assoc_set_field_same.
  - apply Forall_forall. intros e He. now apply filter_In in He.
  - exact Hall.
  - intros k d Hne. cbn [py_get]. now rewrite assoc_set_field_other.
Qed.

(** Filtering what the filter returned changes nothing. *)
Theorem filter_relationships_idempotent (sd sd' : json) :
  filter_relationships sd = Ok sd' -> filter_relationships sd' = Ok sd'.
Proof.
  unfold filter_relationships.
  destruct (py_contains "edges" sd) as [[|]|] eqn:Hc; cbn [rbind];
    [| intros [= <-]; now rewrite Hc | discriminate].
  destruct sd as [| | | | |fields]; try discriminate.
  cbn [py_contains] in Hc. cbn [py_getitem].
  destruct (assoc "edges" fields) as [edges|]; [|discriminate]. cbn [rbind].
  destruct (py_iter edges) as [es|]; [|discriminate]. cbn [rbind].
  destruct (keep_allowed es) as [kept|] eqn:Hk; [|discriminate].
  destruct (keep_allowed_filter es Hk) as [-> Hall].
  cbn [rbind py_setitem]. intros [= <-].
  cbn [py_contains py_getitem rbind]. rewrite assoc_set_field_same.
  cbn [rbind py_iter].
  rewrite (keep_allowed_accepted (edge_accepted_filter Hall)).
  cbn [rbind py_setitem]. now rewrite filter_edge_kept_twice, set_field_twice.
Qed.

Lemma for_each_filter {A} (body : A -> M unit) (keep : A -> bool)
    (good : A -> Prop) (l : list A) :
  (forall x, good x -> keep x = false -> forall w, body x w = (Ok tt, w)) ->
  Forall good l ->
  forall w, for_each body l w = for_each body (filter keep l) w.
Proof.
  intros Hskip Hall. induction Hall as [|x l Hx Hall IH]; intros w; [reflexivity|].
  simpl. destruct (keep x) eqn:Hk.
  - simpl. unfold bind. destruct (body x w) as [[[]|e] w1]; [apply IH | reflexivity].
  - unfold bind. rewrite (Hskip x Hx Hk). apply IH.
Qed.

Lemma bind_same_start {A B} (c : M A) (k1 k2 : A -> M B) (w : World) :
  (forall a w', k1 a w' = k2 a w') -> bind c k1 w = bind c k2 w.
Proof.
  intros H. unfold bind. destruct (c w) as [[a|e] w1]; [apply H | reflexivity].
Qed.

Section ExtractThenUpsert.
Variable E : Env.

Lemma insert_edge_not_kept edge :
  edge_accepted edge -> edge_kept edge = false ->
  forall w, insert_edge E edge w = (Ok tt, w).
Proof.
  intros (t & keep & Ht & Hk) Hnot w.
  rewrite (in_allowed_edge_kept edge Ht Hk) in Hnot. subst keep.
  destruct edge as [| | | | |fields]; try discriminate.
  unfold insert_edge, bind, lift. cbn [py_get] in *.
  injection Ht as Ht. rewrite Ht, Hk. reflexivity.
Qed.

(** The second vocabulary check is pure defence in depth: whenever the
    extractor's filter returns, upserting the graph it returns and
    upserting the graph it was given do the same thing (same outcome,
    same store, same statements sent). *)
Theorem upsert_same_on_filtered (sd sd' ep : json) (w : World) :
  filter_relationships sd = Ok sd' ->
  insert_structured_graph E sd ep w = insert_structured_graph E sd' ep w.
Proof.
  unfold filter_relationships.
  destruct (py_contains "edges" sd) as [[|]|] eqn:Hc; cbn [rbind];
    [| now intros [= <-] | discriminate].
  destruct sd as [| | | | |fields]; try discriminate.
  cbn [py_getitem].
  destruct (assoc "edges" fields) as [edges|] eqn:Hedges; [|discriminate].
  cbn [rbind].
  destruct (py_iter edges) as [es|] eqn:Hiter; [|discriminate]. cbn [rbind].
  destruct (keep_allowed es) as [kept|] eqn:Hk; [|discriminate].
  destruct (keep_allowed_filter es Hk) as [-> Hall].
  cbn [rbind py_setitem]. intros [= <-].
  unfold insert_structured_graph, insert_nodes, insert_edges. cbn [py_get].
  rewrite assoc_set_field_same, Hedges.
  rewrite (@assoc_set_field_other "nodes" "edges") by discriminate.
  cbn [rbind py_iter]. rewrite Hiter.
  apply bind_same_start. intros _ w1. unfold bind, lift.
  apply for_each_filter with (good := edge_accepted); [|exact Hall].
  intros x Hx Hnot w2. now apply insert_edge_not_kept.
Qed.

(** One attempt, no retry: whatever the LLM answers, and whether the
    extraction returns or raises, [extract_structured_json] calls the
    LLM exactly once, adds nothing but log records after that call, and
    leaves the store as it is. *)
Theorem extract_calls_llm_once (text : json) (w : World) :
  let w' := snd (extract_structured_json E text w) in
  graph w' = graph w /\
  exists logs,
    history w' = logs ++ EvCompletion (prompt E text) :: history w /\
    forallb is_log logs = true.
Proof.
  unfold extract_structured_json, create_completion, try_catch, log.
  unfold bind, past, emit, lift, ret. cbn [fst snd graph history].
  destruct (chat_completion E (history w) (prompt E text)) as [txt|e0].
  - cbn [fst snd graph history].
    destruct (json_loads E txt) as [v|e1].
    + destruct (filter_relationships v) as [v'|e2]; cbn [snd graph history].
      * split; [reflexivity|]. now exists [EvLog (LogLLMResponse txt)].
      * destruct (is_JSONDecodeError e2); cbn [snd graph history];
          (split; [reflexivity|]).
        -- now exists [EvLog (LogParseFailure e2); EvLog (LogLLMResponse txt)].
        -- now exists [EvLog (LogLLMResponse txt)].
    + destruct (is_JSONDecodeError e1); cbn [snd graph history];
        (split; [reflexivity|]).
      * now exists [EvLog (LogParseFailure e1); EvLog (LogLLMResponse txt)].
      * now exists [EvLog (LogLLMResponse txt)].
  - cbn [snd graph history]. split; [reflexivity|]. now exists [].
Qed.

End ExtractThenUpsert.

(* ================================================================== *)
(** * What a successful upsert has established *)
(* ================================================================== *)

Lemma for_each_ok_iff {A} (body : A -> M unit) (P : A -> Prop) (l : list A) :
  (forall x w, fst (body x w) = Ok tt <-> P x) ->
  forall w, fst (for_each body l w) = Ok tt <-> Forall P l.
Proof.
  intros Hb. induction l as [|x l IH]; intros w; simpl.
  - split; [constructor | reflexivity].
  - unfold bind. specialize (Hb x w).
    destruct (body x w) as [[[]|e] w1]; simpl in Hb.
    + rewrite IH. split.
      * intros H. constructor; [now apply Hb | exact H].
      * intros H. now inversion H.
    + simpl. split; [discriminate|].
      intros H. inversion H as [|? ? Hx _]. apply Hb in Hx. discriminate.
Qed.

Section UpsertPostcondition.
Variable E : Env.

Lemma insert_node_fst ep node w :
  fst (insert_node E ep node w) = Ok tt <-> node_accepted E node.
Proof.
  unfold insert_node, bind, lift, session_run, node_accepted.
  destruct (py_get node "name" JNull) as [name|e]; cbn [fst].
  - destruct (truthy name) eqn:Hn.
    + destruct (property_fault E name) as [e|] eqn:Hf; cbn [fst].
      * split; [discriminate|]. intros (n & [= <-] & H).
        specialize (H Hn). congruence.
      * split; [|reflexivity]. intros _. exists name. auto.
    + split; [|reflexivity]. intros _. exists name. split; [reflexivity|].
      congruence.
  - split; [discriminate|]. now intros (n & Hn & _).
Qed.

Lemma insert_edge_fst edge w :
  fst (insert_edge E edge w) = Ok tt <-> edge_accepted edge.
Proof.
  unfold insert_edge, bind, lift, session_run, edge_accepted.
  destruct edge as [| | | | |fields]; cbn [py_get fst].
  all: try (split; [discriminate | intros (? & ? & Ht & _); discriminate]).
  set (t := match assoc "type" fields with Some v => v | None => JNull end).
  destruct (in_allowed t) as [b|e] eqn:Hb; cbn [fst].
  - split; [intros _; now exists t, b|]. intros _. now destruct b.
  - split; [discriminate|]. intros (t' & b & [= <-] & Hb'). congruence.
Qed.

(** [insert_structured_graph] returns without raising exactly when its
    argument has the expected shape: the [nodes] and [edges] values can
    be iterated, every node entry is a dict whose name, when truthy, the
    server accepts, and every edge entry is a dict with a hashable
    type. *)
Theorem upsert_succeeds_iff (sd ep : json) (w : World) :
  fst (insert_structured_graph E sd ep w) = Ok tt <->
  exists ns es,
    (n <- py_get sd "nodes" (JArr []) ;; py_iter n)%py = Ok ns /\
    Forall (node_accepted E) ns /\
    (e <- py_get sd "edges" (JArr []) ;; py_iter e)%py = Ok es /\
    Forall edge_accepted es.
Proof.
  unfold insert_structured_graph, insert_nodes, insert_edges.
  unfold bind at 1 2. unfold lift at 1.
  destruct (n <- py_get sd "nodes" (JArr []) ;; py_iter n)%py as [ns|e1]; cbn [fst].
  2:{ split; [discriminate | now intros (? & ? & [=] & _)]. }
  pose proof (for_each_ok_iff (insert_node E ep) (node_accepted E) ns
                (insert_node_fst ep)) as HN.
  specialize (HN w).
  destruct (for_each (insert_node E ep) ns w) as [[[]|e2] w1]; cbn [fst] in *.
  2:{ split; [discriminate|]. intros (ns' & es & [= <-] & Hall & _).
      apply HN in Hall. discriminate. }
  unfold bind, lift.
  destruct (e <- py_get sd "edges" (JArr []) ;; py_iter e)%py as [es|e3]; cbn [fst].
  2:{ split; [discriminate | now intros (? & ? & _ & _ & [=] & _)]. }
  rewrite (for_each_ok_iff (insert_edge E) edge_accepted es insert_edge_fst).
  split.
  - intros Hall. exists ns, es. repeat split; auto. now apply HN.
  - now intros (? & es' & _ & _ & [= <-] & Hall).
Qed.

Lemma insert_node_ok ep node name w w' :
  insert_node E ep node w = (Ok tt, w') ->
  py_get node "name" JNull = Ok name -> truthy name = true ->
  graph w' = run_query (MergeMentions ep name)
               (run_query (MergeEntity name) (graph w)).
Proof.
  intros H Hget Hn. revert H.
  unfold insert_node, bind, lift, session_run. rewrite Hget, Hn.
  destruct (property_fault E name); [discriminate|].
  now intros [= <-].
Qed.

Lemma nodes_loop_settles ep ns :
  forall w w',
    for_each (insert_node E ep) ns w = (Ok tt, w') ->
    forall node name,
      In node ns -> py_get node "name" JNull = Ok name -> truthy name = true ->
      settled (MergeMentions ep name) (graph w').
Proof.
  induction ns as [|n ns IH]; intros w w' H node name Hin Hget Hn; [contradiction|].
  simpl in H. unfold bind in H.
  destruct (insert_node E ep n w) as [[[]|e] w1] eqn:H1; [|discriminate].
  destruct Hin as [-> | Hin]; [|eapply IH; eauto].
  pose proof (insert_node_ok _ _ _ H1 Hget Hn) as Hg.
  destruct (@rerunnable_for_each _ any_query (insert_node E ep) ns
              (rerunnable_insert_node E ep) w1) as [Hev _].
  rewrite H in Hev. cbn [snd] in Hev.
  eapply settled_evolves_node; [reflexivity | exact Hev |].
  rewrite Hg. apply settled_after_mentions.
  now apply settled_after_entity.
Qed.

Lemma insert_edge_ok edge source target rel_type w w' :
  insert_edge E edge w = (Ok tt, w') ->
  py_get edge "source" JNull = Ok source ->
  py_get edge "target" JNull = Ok target ->
  py_get edge "type" JNull = Ok rel_type ->
  in_allowed rel_type = Ok true ->
  graph w' = run_query (MergeRel (py_str E rel_type) source target) (graph w).
Proof.
  intros H Hs Ht Hr Ha. revert H.
  unfold insert_edge, bind, lift, session_run. rewrite Hs, Ht, Hr, Ha.
  now intros [= <-].
Qed.

Lemma edges_loop_settles es :
  forall w w',
    for_each (insert_edge E) es w = (Ok tt, w') ->
    forall edge source target rel_type,
      In edge es ->
      py_get edge "source" JNull = Ok source ->
      py_get edge "target" JNull = Ok target ->
      py_get edge "type" JNull = Ok rel_type ->
      in_allowed rel_type = Ok true ->
      settled (MergeRel (py_str E rel_type) source target) (graph w').
Proof.
  induction es as [|e es IH]; intros w w' H edge s d t Hin Hs Hd Ht Ha;
    [contradiction|].
  simpl in H. unfold bind in H.
  destruct (insert_edge E e w) as [[[]|x] w1] eqn:H1; [|discriminate].
  destruct Hin as [-> | Hin]; [|eapply IH; eauto].
  pose proof (insert_edge_ok _ _ H1 Hs Hd Ht Ha) as Hg.
  destruct (@rerunnable_for_each _ adds_no_node (insert_edge E) es
              (rerunnable_insert_edge E) w1) as [Hev _].
  rewrite H in Hev. cbn [snd] in Hev.
  eapply settled_evolves_rel; [exact Hev|].
  rewrite Hg. apply settled_after_rel.
Qed.

(** Splitting a successful upsert at the end of the node loop. *)
Lemma upsert_ok_split sd ep w w' :
  insert_structured_graph E sd ep w = (Ok tt, w') ->
  exists ns es w1,
    (n <- py_get sd "nodes" (JArr []) ;; py_iter n)%py = Ok ns /\
    for_each (insert_node E ep) ns w = (Ok tt, w1) /\
    (e <- py_get sd "edges" (JArr []) ;; py_iter e)%py = Ok es /\
    for_each (insert_edge E) es w1 = (Ok tt, w').
Proof.
  unfold insert_structured_graph, insert_nodes, insert_edges.
  unfold bind at 1 2. unfold lift at 1.
  destruct (n <- py_get sd "nodes" (JArr []) ;; py_iter n)%py as [ns|e1];
    [|discriminate].
  destruct (for_each (insert_node E ep) ns w) as [[[]|e2] w1] eqn:HN;
    [|discriminate].
  unfold bind, lift.
  destruct (e <- py_get sd "edges" (JArr []) ;; py_iter e)%py as [es|e3];
    [|discriminate].
  intros H. exists ns, es, w1. repeat split; auto.
Qed.

(** After an upsert that returned, every node entry with a truthy name
    has its Entity in the store, and every Episode node that bears the
    episode name is linked to every Entity of that name by a MENTIONS
    edge. *)
Theorem upsert_links_entities (sd ep : json) (w w' : World) (ns : list json)
    (node name : json) :
  insert_structured_graph E sd ep w = (Ok tt, w') ->
  (n <- py_get sd "nodes" (JArr []) ;; py_iter n)%py = Ok ns ->
  In node ns ->
  py_get node "name" JNull = Ok name ->
  truthy name = true ->
  entity_exists name (graph w') = true /\
  all_linked MENTIONS
    (match_nodes (is_episode_named ep) (graph w'))
    (match_nodes (is_entity_named name) (graph w')) (graph w').
Proof.
  intros H Hns Hin Hget Hn.
  destruct (upsert_ok_split _ _ _ H) as (ns' & es & w1 & Hns' & HN & Hes & HE).
  rewrite Hns in Hns'. injection Hns' as <-.
  destruct (@rerunnable_for_each _ adds_no_node (insert_edge E) es
              (rerunnable_insert_edge E) w1) as [Hev _].
  rewrite HE in Hev. cbn [snd] in Hev. apply evolves_any in Hev.
  apply (@settled_evolves_node (MergeMentions ep name) _ _ eq_refl Hev).
  eapply nodes_loop_settles; eauto.
Qed.

(** After an upsert that returned, every edge entry whose type is in
    the vocabulary is in the store between every Entity that bears its
    source name and every Entity that bears its target name. *)
Theorem upsert_links_edges (sd ep : json) (w w' : World) (es : list json)
    (edge source target rel_type : json) :
  insert_structured_graph E sd ep w = (Ok tt, w') ->
  (e <- py_get sd "edges" (JArr []) ;; py_iter e)%py = Ok es ->
  In edge es ->
  py_get edge "source" JNull = Ok source ->
  py_get edge "target" JNull = Ok target ->
  py_get edge "type" JNull = Ok rel_type ->
  in_allowed rel_type = Ok true ->
  all_linked (py_str E rel_type)
    (match_nodes (is_entity_named source) (graph w'))
    (match_nodes (is_entity_named target) (graph w')) (graph w').
Proof.
  intros H Hes Hin Hs Hd Ht Ha.
  destruct (upsert_ok_split _ _ _ H) as (ns & es' & w1 & Hns & HN & Hes' & HE).
  rewrite Hes in Hes'. injection Hes' as <-.
  exact (edges_loop_settles _ _ HE _ Hin Hs Hd Ht Ha).
Qed.

End UpsertPostcondition.

(* ================================================================== *)
(** * Invariants of the batch endpoint *)
(* ================================================================== *)

Section BatchInvariant.
Variable E : Env.
Variable I : World -> Prop.

(** [I] survives a new entry of the history, a well-formed statement,
    and the recording of an episode. *)
Hypothesis I_event :
  forall w ev, I w -> I (mkWorld (graph w) (ev :: history w)).
Hypothesis I_run :
  forall q w, well_formed_query q = true -> I w ->
              I (mkWorld (run_query q (graph w)) (EvRun q :: history w)).
Hypothesis I_episode :
  forall w n b s d t,
    I w ->
    I (mkWorld (mkGraph (nodes (graph w) ++ [Episode n b s d t]) (rels (graph w)))
         (EvAddEpisode n b s d t :: history w)).

Lemma kept_by_emit ev : preserves I (emit ev).
Proof. intros w H. now apply I_event. Qed.

Lemma kept_by_extract text : preserves I (extract_structured_json E text).
Proof.
  unfold extract_structured_json, create_completion, log.
  apply preserves_bind.
  - apply preserves_bind; [intros w H; exact H | intros h].
    apply preserves_bind; [apply kept_by_emit | intros _; apply preserves_lift].
  - intros txt. apply preserves_bind; [apply kept_by_emit | intros _].
    apply preserves_try_catch.
    + apply preserves_bind; intros; apply preserves_lift.
    + intros e. apply preserves_bind; [apply kept_by_emit | intros _].
      apply preserves_ret.
Qed.

Lemma kept_by_upsert sd ep : preserves I (insert_structured_graph E sd ep).
Proof.
  apply preserves_insert_structured_graph; [exact I_run|].
  intros q w _ H. now apply I_event.
Qed.

Lemma kept_by_add_episode n b s d t :
  preserves I (graphiti_add_episode E n b s d t).
Proof.
  intros w H. unfold graphiti_add_episode.
  destruct (add_episode_fault E (history w) n b s d t); cbn [snd];
    [now apply I_event | now apply I_episode].
Qed.

Lemma kept_by_process_episode ep : preserves I (process_episode E ep).
Proof.
  unfold process_episode.
  do 4 (apply preserves_bind; [apply preserves_lift | intros ?]).
  destruct (negb _ || negb _); [apply preserves_ret|].
  apply preserves_bind.
  - unfold now_utc. apply preserves_bind; [intros w H; exact H | intros h].
    apply preserves_bind; [apply kept_by_emit | intros _; apply preserves_ret].
  - intros now. destruct (parse_reference_time E _ now); [|apply preserves_ret].
    apply preserves_try_catch.
    + unfold ingest, after_episode_write.
      apply preserves_bind; [apply kept_by_add_episode | intros _].
      apply preserves_bind; [apply kept_by_extract | intros sj].
      apply preserves_bind; [|intros _; apply preserves_ret].
      destruct (truthy sj); [apply kept_by_upsert | apply preserves_ret].
    + intros e. unfold ingest_failed, log.
      apply preserves_bind; [apply kept_by_emit | intros _; apply preserves_ret].
Qed.

Lemma kept_by_add_episodes body : preserves I (add_episodes E body).
Proof.
  unfold add_episodes. destruct body; try apply preserves_ret.
  apply preserves_bind; [|intros; apply preserves_ret].
  generalize (@nil json) as acc.
  induction items as [|ep l IH]; intros acc; simpl.
  - apply preserves_ret.
  - apply preserves_bind; [apply kept_by_process_episode | intros r; apply IH].
Qed.

End BatchInvariant.




Section BatchResults.
Variable E : Env.

(** Whatever the request body and whatever the outside answers, the
    batch endpoint only adds: the nodes and relationships of the store
    before the call are still there, in place, after it, and the
    history is extended, never rewritten. *)
Theorem batch_only_grows (body : json) (w : World) :
  extends w (snd (add_episodes E body w)).
Proof.
  apply (kept_by_add_episodes E (extends w)).
  - intros w' ev H. eapply extends_trans; [exact H | apply extends_event].
  - intros q w' _ H. eapply extends_trans; [exact H | apply extends_run].
  - intros w' n b s d t H. eapply extends_trans; [exact H|].
    repeat split; cbn [graph history nodes rels].
    + now exists [EvAddEpisode n b s d t].
    + now eexists.
    + exists []. now rewrite app_nil_r.
  - apply extends_refl.
Qed.


(** Whatever the request body and whatever the LLM answers, every
    relationship of the store after a batch was there before, or is a
    MENTIONS edge from an Episode to an Entity, or is an edge of the
    vocabulary between two Entities. *)
Theorem batch_writes_only_vocabulary (body : json) (w : World) :
  let g' := graph (snd (add_episodes E body w)) in
  Forall (legitimate_edge (graph w) g') (rels g').
Proof.
  cbv zeta. apply Forall_forall.
  apply (kept_by_add_episodes E
           (fun w' => forall r, In r (rels (graph w')) ->
                                legitimate_edge (graph w) (graph w') r)).
  - intros w' ev H. exact H.
  - intros q w' Hq H. now apply run_query_legitimate_edges.
  - intros w' n b s d t H r Hr. cbn [graph rels] in *.
    eapply legitimate_edge_grows; [|now apply H]. reflexivity.
  - intros r Hr. now left.
Qed.

End BatchResults.

(* ================================================================== *)
(** * Provenance needs the episode *)
(* ================================================================== *)

Section UpsertFor.
Variable E : Env.
Variable ep : json.
Variable I : World -> Prop.

Hypothesis I_sent :
  forall q w, sent_for ep q -> I w ->
              I (mkWorld (run_query q (graph w)) (EvRun q :: history w)).
Hypothesis I_refused :
  forall q w, I w -> I (mkWorld (graph w) (EvRun q :: history w)).

Lemma sent_session_run q : sent_for ep q -> preserves I (session_run E q).
Proof.
  intros Hq w H. unfold session_run.
  destruct (match q with MergeEntity v => property_fault E v | _ => None end);
    simpl; auto.
Qed.

Lemma sent_upsert sd : preserves I (insert_structured_graph E sd ep).
Proof.
  unfold insert_structured_graph, insert_nodes, insert_edges.
  apply preserves_bind; [|intros _]; apply preserves_bind_lift; intros l _;
    apply preserves_for_each; intros x.
  - unfold insert_node. apply preserves_bind_lift. intros name _.
    destruct (truthy name) eqn:Hn; [|apply preserves_ret].
    apply preserves_bind; [|intros _]; apply sent_session_run; simpl; auto.
  - unfold insert_edge. do 3 (apply preserves_bind_lift; intros ? _).
    apply preserves_bind_lift. intros [|] Hal; simpl; [|apply preserves_ret].
    apply in_allowed_true in Hal as [s [-> Hs]].
    now apply sent_session_run.
Qed.

End UpsertFor.

Section NoEpisode.
Variable E : Env.

(** Provenance needs the episode: if no Episode node of the store bears
    the episode name, the upsert writes no MENTIONS edge at all: every
    relationship it adds has a type of the vocabulary. *)
Theorem upsert_without_episode (sd ep : json) (w : World) :
  match_nodes (is_episode_named ep) (graph w) = [] ->
  let g' := graph (snd (insert_structured_graph E sd ep w)) in
  Forall (fun r => In r (rels (graph w)) \/ isAllowed (rtype r) = true) (rels g').
Proof.
  intros Hnone. cbv zeta. apply Forall_forall.
  apply (@sent_upsert E ep
           (fun w' =>
              match_nodes (is_episode_named ep) (graph w') = [] /\
              forall r, In r (rels (graph w')) ->
                        In r (rels (graph w)) \/ isAllowed (rtype r) = true)).
  - intros q w' Hq [Hrows Hrels]. cbn [graph]. split.
    + now rewrite episode_row_stable.
    + intros r Hr. destruct q; simpl in Hr, Hq.
      * apply Hrels. now destruct (existsb _ (nodes (graph w'))).
      * destruct Hq as [-> _]. rewrite Hrows in Hr. now apply Hrels.
      * apply merge_rels_origin in Hr as [Hr | (Ht & _)]; [now apply Hrels|].
        right. congruence.
  - intros q w' H. exact H.
  - split; [exact Hnone | now left].
Qed.

End NoEpisode.

(* ================================================================== *)
(** * How an episode fails *)
(* ================================================================== *)

Section EpisodeFailures.
Variable E : Env.

(** The world once the episode has been recorded. *)
Lemma guarded_ingest_written name content description ref_time w :
  add_episode_fault E (history w) name content text description ref_time = None ->
  try_catch any_exception (ingest E name content description ref_time)
    (ingest_failed E name) w
  = try_catch any_exception (after_episode_write E name content)
      (ingest_failed E name)
      (mkWorld
         (mkGraph
            (nodes (graph w) ++ [Episode name content text description ref_time])
            (rels (graph w)))
         (EvAddEpisode name content text description ref_time :: history w)).
Proof.
  intros Hf. rewrite guarded_ingest_unfold. unfold graphiti_add_episode.
  now rewrite Hf.
Qed.

(** When the engine refuses the episode, the request is answered with
    the engine's error under the episode's name; the LLM is not called,
    no Cypher statement is sent and the store is unchanged. *)
Theorem episode_write_failure (ep name content description rt : json)
    (ref_time : datetime) (e : exn) (w : World) :
  validated ep name content ->
  py_get ep "description" (JStr "") = Ok description ->
  py_get ep "reference_time" JNull = Ok rt ->
  let now := utcnow E (history w) in
  parse_reference_time E rt now = Some ref_time ->
  add_episode_fault E (EvNow now :: history w) name content text description
    ref_time = Some e ->
  process_episode E ep w
  = (Ok (failure E name e),
     mkWorld (graph w)
       (EvLog (LogEpisodeError name e)
        :: EvAddEpisode name content text description ref_time
        :: EvNow now :: history w)).
Proof.
  intros Hv Hd Hr now Hp Hf.
  rewrite (process_episode_validated E w Hv Hd Hr). cbv zeta. fold now.
  rewrite Hp, guarded_ingest_unfold. unfold graphiti_add_episode.
  cbn [graph history]. now rewrite Hf.
Qed.

(** When the LLM call itself raises, the request is answered with that
    error under the episode's name, and the episode stays recorded: the
    store has gained the Episode node and nothing else. *)
Theorem llm_call_failure (ep name content description rt : json)
    (ref_time : datetime) (e : exn) (w : World) :
  validated ep name content ->
  py_get ep "description" (JStr "") = Ok description ->
  py_get ep "reference_time" JNull = Ok rt ->
  let now := utcnow E (history w) in
  parse_reference_time E rt now = Some ref_time ->
  let h1 := EvNow now :: history w in
  add_episode_fault E h1 name content text description ref_time = None ->
  let h2 := EvAddEpisode name content text description ref_time :: h1 in
  chat_completion E h2 (prompt E content) = Raise e ->
  process_episode E ep w
  = (Ok (failure E name e),
     mkWorld
       (mkGraph
          (nodes (graph w) ++ [Episode name content text description ref_time])
          (rels (graph w)))
       (EvLog (LogEpisodeError name e)
        :: EvCompletion (prompt E content) :: h2)).
Proof.
  intros Hv Hd Hr now Hp h1 Hf h2 Hchat.
  rewrite (process_episode_validated E w Hv Hd Hr). cbv zeta. fold now.
  rewrite Hp, guarded_ingest_written by exact Hf.
  unfold try_catch, after_episode_write, extract_structured_json,
    create_completion, ingest_failed, log.
  unfold bind, past, emit, lift, ret. cbn [fst snd graph history].
  fold h1 h2. now rewrite Hchat.
Qed.

(** An LLM answer that is valid JSON but neither an object, an array
    nor a string (null, a number, true, false) is not degraded like an
    answer that is not JSON: the test ["edges" in structured_data]
    raises a TypeError that the extractor does not catch, and the
    request is answered with that error; the episode stays recorded. *)
Theorem scalar_answer_fails_episode (ep name content description rt : json)
    (ref_time : datetime) (txt : string) (v : json) (w : World) :
  validated ep name content ->
  py_get ep "description" (JStr "") = Ok description ->
  py_get ep "reference_time" JNull = Ok rt ->
  let now := utcnow E (history w) in
  parse_reference_time E rt now = Some ref_time ->
  let h1 := EvNow now :: history w in
  add_episode_fault E h1 name content text description ref_time = None ->
  let h2 := EvAddEpisode name content text description ref_time :: h1 in
  chat_completion E h2 (prompt E content) = Ok txt ->
  json_loads E txt = Ok v ->
  is_scalar v = true ->
  process_episode E ep w
  = (Ok (failure E name (TypeError NotIterable v)),
     mkWorld
       (mkGraph
          (nodes (graph w) ++ [Episode name content text description ref_time])
          (rels (graph w)))
       (EvLog (LogEpisodeError name (TypeError NotIterable v))
        :: EvLog (LogLLMResponse txt)
        :: EvCompletion (prompt E content) :: h2)).
Proof.
  intros Hv Hd Hr now Hp h1 Hf h2 Hchat Hloads Hscalar.
  rewrite (process_episode_validated E w Hv Hd Hr). cbv zeta. fold now.
  rewrite Hp, guarded_ingest_written by exact Hf.
  unfold try_catch, after_episode_write, extract_structured_json,
    create_completion, ingest_failed, log.
  unfold bind, past, emit, lift, ret. cbn [fst snd graph history].
  fold h1 h2. rewrite Hchat, Hloads.
  destruct v; try discriminate; reflexivity.
Qed.

(** A reference_time that is a non-empty string [fromisoformat] accepts
    is the timestamp the episode is written with, not the clock's; and
    unless the engine raises, the Episode node with that timestamp is in
    the store after the iteration, whether extraction and upsert succeed
    or not. *)
Theorem parsed_reference_time_is_stored (ep name content description : json)
    (s : string) (t : datetime) (w : World) :
  validated ep name content ->
  py_get ep "description" (JStr "") = Ok description ->
  py_get ep "reference_time" JNull = Ok (JStr s) ->
  s <> "" ->
  fromisoformat E s = Some t ->
  let now := utcnow E (history w) in
  let w' := snd (process_episode E ep w) in
  (exists evs,
     history w'
     = evs ++ [EvAddEpisode name content text description t; EvNow now]
           ++ history w) /\
  (add_episode_fault E (EvNow now :: history w) name content text description t
   = None ->
   In (Episode name content text description t) (nodes (graph w'))).
Proof.
  intros Hv Hd Hr Hs Hiso now.
  rewrite (process_episode_validated E w Hv Hd Hr). cbv zeta. fold now.
  unfold parse_reference_time. cbn [truthy].
  apply String.eqb_neq in Hs. rewrite Hs, Hiso. cbn [negb].
  rewrite guarded_ingest_unfold. unfold graphiti_add_episode.
  cbn [graph history].
  destruct (add_episode_fault E (EvNow now :: history w) name content text
              description t) as [e|].
  - split; [|discriminate]. now exists [EvLog (LogEpisodeError name e)].
  - match goal with
    | |- context [try_catch _ _ _ ?w2] =>
        destruct (guarded_rest_grows E name content w2)
          as ([evs Hh] & [ns Hns] & _)
    end.
    cbn [graph history nodes] in Hh, Hns. split.
    + exists evs. exact Hh.
    + intros _. rewrite Hns. apply in_or_app. left.
      apply in_or_app. right. now left.
Qed.

(** A reference_time that is truthy but not a string (a number, a list,
    an object, true) is rejected like an unparseable string: the answer
    is the invalid-reference_time error and nothing runs after the
    reading of the clock. *)
Theorem non_string_reference_time_rejected (ep name content description rt : json)
    (w : World) :
  validated ep name content ->
  py_get ep "description" (JStr "") = Ok description ->
  py_get ep "reference_time" JNull = Ok rt ->
  truthy rt = true ->
  (forall s, rt <> JStr s) ->
  process_episode E ep w
  = (Ok (invalid_time_error E name),
     mkWorld (graph w) (EvNow (utcnow E (history w)) :: history w)).
Proof.
  intros Hv Hd Hr Ht Hns.
  rewrite (process_episode_validated E w Hv Hd Hr). cbv zeta.
  unfold parse_reference_time. rewrite Ht.
  destruct rt; try reflexivity. now destruct (Hns s).
Qed.

Lemma process_all_app l1 l2 :
  forall acc w,
    process_all E (l1 ++ l2) acc w
    = match process_all E l1 acc w with
      | (Ok acc', w') => process_all E l2 acc' w'
      | (Raise e, w') => (Raise e, w')
      end.
Proof.
  induction l1 as [|ep l1 IH]; intros acc w; simpl; [reflexivity|].
  unfold bind. destruct (process_episode E ep w) as [[r|e] w1]; [apply IH | reflexivity].
Qed.

(** A batch with an element that is not a JSON object: the requests
    before it are processed and their writes stay, but the handler then
    raises an AttributeError out of the loop: no result list is
    returned, not even for the requests already processed, and the
    requests after the element are never looked at. *)
Theorem non_object_element_aborts (before after : list json) (bad : json)
    (w : World) :
  Forall (fun ep => is_dict ep = true) before ->
  is_dict bad = false ->
  add_episodes E (JArr (before ++ bad :: after)) w
  = (Raise (AttributeError bad "get"), world_after E before w).
Proof.
  intros Hd Hbad. unfold add_episodes. unfold bind at 1.
  rewrite process_all_app.
  destruct (process_all_spec E [] w Hd) as [outs (Hrun & _ & _)].
  rewrite Hrun. simpl. unfold bind at 1.
  unfold process_episode. unfold bind at 1. unfold lift at 1.
  destruct bad; try discriminate; reflexivity.
Qed.

End EpisodeFailures.

(* ================================================================== *)
(** * Search: the answers of the endpoint *)
(* ================================================================== *)

Section SearchAnswers.
Import GrafityMain.
Variable E : Env.
Variable S : SearchEnv.

Lemma search_graphiti_on_success query results w :
  graphiti_search S (EvLog (LogSearchQuery query) :: history w) query = Ok results ->
  search_graphiti E S query w
  = (Ok (map (format_result S) results),
     mkWorld (graph w)
       (EvLog (LogSearchCount (List.length results)) :: EvSearch query
        :: EvLog (LogSearchQuery query) :: history w)).
Proof.
  intros Hs. unfold search_graphiti, search_call, try_catch, log.
  unfold bind, past, emit, lift, ret. cbn [fst snd graph history].
  now rewrite Hs.
Qed.

(** A search that goes through: the endpoint answers 200 with one dict
    per match, in the order of the engine; each dict carries the uuid,
    the fact and the source node of its match, and a timestamp the match
    lacks is null, not an empty string.  The store is not touched. *)
Theorem search_success (request_data : json) (query : string)
    (results : list EntityEdge) (w : World) :
  let h := EvLog (LogRequestData request_data) :: history w in
  SearchRequest request_data = Ok query ->
  connect_fault S h = None ->
  graphiti_search S (EvLog (LogSearchQuery query) :: EvConnect :: h) query
  = Ok results ->
  exists dicts,
    fst (search_graphiti_api E S request_data w)
    = Ok (mkResponse 200 (JArr dicts)) /\
    graph (snd (search_graphiti_api E S request_data w)) = graph w /\
    List.length dicts = List.length results /\
    forall k r,
      nth_error results k = Some r ->
      nth_error dicts k
      = Some (JObj [("uuid", JStr (edge_uuid r));
                    ("fact", JStr (edge_fact r));
                    ("valid_at",
                     match edge_valid_at r with
                     | Some t => JStr (str_datetime S t)
                     | None => JNull
                     end);
                    ("invalid_at",
                     match edge_invalid_at r with
                     | Some t => JStr (str_datetime S t)
                     | None => JNull
                     end);
                    ("source_node_uuid",
                     match edge_source_node_uuid r with
                     | Some u => JStr u
                     | None => JNull
                     end)]).
Proof.
  intros h Hreq Hconn Hs.
  exists (map result_dict (map (format_result S) results)).
  assert (Hrun :
    search_graphiti_api E S request_data w
    = (Ok (mkResponse 200 (JArr (map result_dict (map (format_result S) results)))),
       mkWorld (graph w)
         (EvLog (LogSearchCount (List.length results)) :: EvSearch query
          :: EvLog (LogSearchQuery query) :: EvConnect :: h))).
  { unfold search_graphiti_api, try_catch, connect, log.
    unfold bind, past, emit, lift, ret. cbn [fst snd graph history].
    fold h. rewrite Hreq, Hconn.
    now rewrite (@search_graphiti_on_success query results
                   (mkWorld (graph w) (EvConnect :: h)) Hs). }
  rewrite Hrun. cbn [fst snd graph]. repeat split.
  - now rewrite !length_map.
  - intros k r Hk. rewrite map_map.
    rewrite (map_nth_error _ _ _ Hk). unfold result_dict, format_result.
    cbn [uuid fact valid_at invalid_at source_node_uuid].
    now destruct (edge_valid_at r), (edge_invalid_at r), (edge_source_node_uuid r).
Qed.

(** A request body that is not an object, or an object without a
    [query] key, never reaches the engine: no connection is opened, no
    search is issued, and the answer is the fixed 500 body. *)
Theorem search_request_without_query (request_data : json) (w : World) :
  (forall l, request_data = JObj l -> assoc "query" l = None) ->
  exists e,
    search_graphiti_api E S request_data w
    = (Ok generic_failure,
       mkWorld (graph w)
         (EvLog (LogTraceback e) :: EvLog (LogRequestFailure e)
          :: EvLog (LogRequestData request_data) :: history w)).
Proof.
  intros Hq.
  assert (Hraise : exists e, SearchRequest request_data = Raise e).
  { destruct request_data; simpl; eauto. now rewrite (Hq fields eq_refl); eauto. }
  destruct Hraise as [e He]. exists e.
  unfold search_graphiti_api, try_catch, log.
  unfold bind, past, emit, lift, ret. cbn [fst snd graph history].
  now rewrite He.
Qed.


(** [add_episode_to_graphiti] looks the type up ignoring ASCII case:
    when the lowered type is the name of a member of the engine's
    [EpisodeType], the episode is written with that member as source and
    with the UTC time read from the clock in the call; an error of the
    engine is passed on. *)
Theorem valid_episode_type (names : list string) (episode : EpisodeRequest)
    (w : World) :
  In (lower (ep_type episode)) names ->
  let ty := EpisodeType_named (lower (ep_type episode)) in
  let now := utcnow E (history w) in
  let name := JStr (ep_name episode) in
  let content := JStr (ep_content episode) in
  let description := JStr (ep_description episode) in
  let h := EvAddEpisode name content ty description now :: EvNow now :: history w in
  add_episode_to_graphiti E names episode w
  = match add_episode_fault E (EvNow now :: history w) name content ty
            description now with
    | Some e => (Raise e, mkWorld (graph w) h)
    | None =>
        (Ok tt,
         mkWorld
           (mkGraph (nodes (graph w) ++ [Episode name content ty description now])
              (rels (graph w)))
           h)
    end.
Proof.
  intros Hin ty now name content description h.
  assert (Hget : EpisodeType_getitem names (lower (ep_type episode)) = Ok ty).
  { unfold EpisodeType_getitem.
    assert (Hex : existsb (String.eqb (lower (ep_type episode))) names = true).
    { apply existsb_exists. exists (lower (ep_type episode)).
      split; [exact Hin | apply String.eqb_refl]. }
    now rewrite Hex. }
  unfold add_episode_to_graphiti, try_catch. unfold bind at 1. unfold lift.
  rewrite Hget. unfold QuickStart.now_utc, QuickStart.graphiti_add_episode.
  unfold bind, past, emit, ret. cbn [fst snd graph history].
  fold now name content description.
  now destruct (add_episode_fault E (EvNow now :: history w) name content ty
                  description now).
Qed.

End SearchAnswers.

(* ================================================================== *)
(** * Settings *)
(* ================================================================== *)

Lemma is_set_getenv environ k d :
  d <> "" ->
  is_set (getenv environ k (Some d)) = true <-> environ k <> Some "".
Proof.
  intros Hd. unfold getenv. destruct (environ k) as [v|]; simpl.
  - destruct (String.eqb_spec v ""); simpl.
    + subst. split; [discriminate | intros H; now destruct H].
    + split; [intros _ [= H]; contradiction | reflexivity].
  - apply String.eqb_neq in Hd. rewrite Hd. split; [discriminate | reflexivity].
Qed.

(** The start-up check of [quickStart.py]: the settings load exactly
    when OPENAI_API_KEY is set to a non-empty value and none of the
    three NEO4J variables is set to the empty string; a NEO4J variable
    that is not set never blocks the start, its default is used. *)
Theorem load_config_ok_iff (environ : string -> option string) :
  ((exists c, load_config environ = Ok c) <->
   is_set (environ "OPENAI_API_KEY") = true /\
   environ "NEO4J_URI" <> Some "" /\
   environ "NEO4J_USER" <> Some "" /\
   environ "NEO4J_PASSWORD" <> Some "") /\
  (forall c,
     load_config environ = Ok c ->
     neo4j_uri c = Some (match environ "NEO4J_URI" with
                         | Some v => v
                         | None => "bolt://localhost:7687"
                         end) /\
     neo4j_user c = Some (match environ "NEO4J_USER" with
                          | Some v => v
                          | None => "neo4j"
                          end) /\
     neo4j_password c = Some (match environ "NEO4J_PASSWORD" with
                              | Some v => v
                              | None => "password"
                              end) /\
     openai_api_key c = environ "OPENAI_API_KEY") /\
  ((forall c, load_config environ <> Ok c) ->
   load_config environ = Raise (ValueError "Missing required environment variables.")).
Proof.
  unfold load_config. cbn [forallb].
  rewrite <- (@is_set_getenv environ "NEO4J_URI" "bolt://localhost:7687")
    by discriminate.
  rewrite <- (@is_set_getenv environ "NEO4J_USER" "neo4j") by discriminate.
  rewrite <- (@is_set_getenv environ "NEO4J_PASSWORD" "password") by discriminate.
  assert (Hkey : getenv environ "OPENAI_API_KEY" None = environ "OPENAI_API_KEY")
    by (unfold getenv; now destruct (environ "OPENAI_API_KEY")).
  rewrite Hkey.
  destruct (is_set (getenv environ "NEO4J_URI" _)),
           (is_set (getenv environ "NEO4J_USER" _)),
           (is_set (getenv environ "NEO4J_PASSWORD" _)),
           (is_set (environ "OPENAI_API_KEY")); cbn [andb].
  all: split; [split; [intros [c H]; try discriminate; auto
                      | intros (H1 & H2 & H3 & H4); try discriminate; eauto]
              | split; [intros c H; try discriminate | intros H; try reflexivity]].
  - injection H as <-. cbn [neo4j_uri neo4j_user neo4j_password openai_api_key].
    unfold getenv.
    now destruct (environ "NEO4J_URI"), (environ "NEO4J_USER"),
      (environ "NEO4J_PASSWORD").
  - now destruct (H _ eq_refl).
Qed.

(* ================================================================== *)
(** * Further results on concrete requests *)
(* ================================================================== *)

Section ConcreteMore.
Import Demo.

(** C3, which the code does not keep.  The body [[ep1, 3, ep1]] is a
    list, so it passes the only check of the endpoint; the first request
    is processed and its writes stay; on the number 3, [ep.get], which
    is outside any [try], raises AttributeError out of the loop: the
    handler returns no result list, not even for the first request, and
    the third request, a good one, is never processed (the store ends
    with the first request's episode and entities only). *)
Lemma batch_with_number_raises :
  let run := add_episodes env (JArr batch_with_number) empty_world in
  fst run = Raise (AttributeError (JNum 3) "get") /\
  graph (snd run)
  = mkGraph
      [Episode (JStr "Ep1") (JStr "Alice practices yoga on Monday.") text
         (JStr "") 1700000000%Z;
       Entity (JStr "Alice"); Entity (JStr "Yoga"); Entity (JStr "Monday")]
      [mkRel 0 MENTIONS 1; mkRel 0 MENTIONS 2; mkRel 0 MENTIONS 3;
       mkRel 1 "practices" 2].
Proof. vm_compute. split; reflexivity. Qed.

Lemma filter_relationships_result_witness :
  filter_relationships alice_graph = Ok alice_filtered /\
  py_get alice_filtered "edges" (JArr [])
  = Ok (JArr (filter edge_kept [edge "Alice" "Yoga" "practices";
                                 edge "Alice" "Monday" "mentions_on"])) /\
  py_get alice_filtered "nodes" (JArr []) = py_get alice_graph "nodes" (JArr []).
Proof.
  split; [reflexivity|].
  destruct (@filter_relationships_result
              [("nodes", JArr [named "Alice"; named "Yoga"; named "Monday"]);
               ("edges", JArr [edge "Alice" "Yoga" "practices";
                               edge "Alice" "Monday" "mentions_on"])]
              (JArr [edge "Alice" "Yoga" "practices";
                     edge "Alice" "Monday" "mentions_on"])
              [edge "Alice" "Yoga" "practices"; edge "Alice" "Monday" "mentions_on"]
              alice_filtered eq_refl eq_refl eq_refl)
    as (_ & Hedges & _ & _ & Hother).
  split; [exact Hedges|]. apply Hother. discriminate.
Defined.

Lemma filter_relationships_idempotent_witness :
  filter_relationships alice_graph = Ok alice_filtered /\
  filter_relationships alice_filtered = Ok alice_filtered.
Proof.
  split; [reflexivity|].
  apply (@filter_relationships_idempotent alice_graph alice_filtered). reflexivity.
Defined.

Lemma upsert_same_on_filtered_witness :
  filter_relationships alice_graph = Ok alice_filtered /\
  insert_structured_graph env alice_graph (JStr "Ep1") world_ep1
  = insert_structured_graph env alice_filtered (JStr "Ep1") world_ep1.
Proof.
  split; [reflexivity|].
  apply (@upsert_same_on_filtered env alice_graph alice_filtered (JStr "Ep1")
           world_ep1).
  reflexivity.
Defined.

Lemma upsert_links_entities_witness :
  let w' := snd (insert_structured_graph env alice_graph (JStr "Ep1") world_ep1) in
  fst (insert_structured_graph env alice_graph (JStr "Ep1") world_ep1) = Ok tt /\
  entity_exists (JStr "Yoga") (graph w') = true /\
  all_linked MENTIONS
    (match_nodes (is_episode_named (JStr "Ep1")) (graph w'))
    (match_nodes (is_entity_named (JStr "Yoga")) (graph w')) (graph w').
Proof.
  split; [reflexivity|].
  apply (@upsert_links_entities env alice_graph (JStr "Ep1") world_ep1
           (snd (insert_structured_graph env alice_graph (JStr "Ep1") world_ep1))
           [named "Alice"; named "Yoga"; named "Monday"]
           (named "Yoga") (JStr "Yoga"));
    [reflexivity | reflexivity | right; left; reflexivity | reflexivity
    | reflexivity].
Defined.

Lemma upsert_links_edges_witness :
  let w' := snd (insert_structured_graph env alice_graph (JStr "Ep1") world_ep1) in
  in_allowed (JStr "practices") = Ok true /\
  all_linked "practices"
    (match_nodes (is_entity_named (JStr "Alice")) (graph w'))
    (match_nodes (is_entity_named (JStr "Yoga")) (graph w')) (graph w').
Proof.
  split; [reflexivity|].
  apply (@upsert_links_edges env alice_graph (JStr "Ep1") world_ep1
           (snd (insert_structured_graph env alice_graph (JStr "Ep1") world_ep1))
           [edge "Alice" "Yoga" "practices"; edge "Alice" "Monday" "mentions_on"]
           (edge "Alice" "Yoga" "practices")
           (JStr "Alice") (JStr "Yoga") (JStr "practices"));
    [reflexivity | reflexivity | left; reflexivity | reflexivity | reflexivity
    | reflexivity | reflexivity].
Defined.


Lemma upsert_without_episode_witness :
  let g' := graph (snd (insert_structured_graph env alice_graph (JStr "Ep1")
                          empty_world)) in
  match_nodes (is_episode_named (JStr "Ep1")) (graph empty_world) = [] /\
  Forall (fun r => In r (rels (graph empty_world)) \/ isAllowed (rtype r) = true)
    (rels g').
Proof.
  split; [reflexivity|].
  apply (@upsert_without_episode env alice_graph (JStr "Ep1") empty_world).
  reflexivity.
Defined.

Lemma episode_write_failure_witness :
  add_episode_fault env [EvNow 1700000000%Z] (JStr "Unlucky") pushups text
    (JStr "") 1700000000%Z
  = Some (LibraryError "ServiceUnavailable" "store unreachable") /\
  process_episode env ep_unlucky empty_world
  = (Ok (failure env (JStr "Unlucky")
           (LibraryError "ServiceUnavailable" "store unreachable")),
     mkWorld (graph empty_world)
       [EvLog (LogEpisodeError (JStr "Unlucky")
                 (LibraryError "ServiceUnavailable" "store unreachable"));
        EvAddEpisode (JStr "Unlucky") pushups text (JStr "") 1700000000%Z;
        EvNow 1700000000%Z]).
Proof.
  split; [reflexivity|].
  apply (@episode_write_failure env ep_unlucky (JStr "Unlucky") pushups (JStr "")
           JNull 1700000000%Z
           (LibraryError "ServiceUnavailable" "store unreachable") empty_world);
    [repeat split | reflexivity | reflexivity | reflexivity | reflexivity].
Defined.

Lemma llm_call_failure_witness :
  chat_completion env_outage
    [EvAddEpisode (JStr "Ep2") pushups text (JStr "") 1700000000%Z;
     EvNow 1700000000%Z]
    (prompt env_outage pushups) = Raise rate_limited /\
  process_episode env_outage ep_bob empty_world
  = (Ok (failure env_outage (JStr "Ep2") rate_limited),
     mkWorld
       (mkGraph [Episode (JStr "Ep2") pushups text (JStr "") 1700000000%Z] [])
       [EvLog (LogEpisodeError (JStr "Ep2") rate_limited);
        EvCompletion (prompt env_outage pushups);
        EvAddEpisode (JStr "Ep2") pushups text (JStr "") 1700000000%Z;
        EvNow 1700000000%Z]).
Proof.
  split; [reflexivity|].
  apply (@llm_call_failure env_outage ep_bob (JStr "Ep2") pushups (JStr "") JNull
           1700000000%Z rate_limited empty_world);
    [repeat split | reflexivity | reflexivity | reflexivity | reflexivity
    | reflexivity].
Defined.

Lemma scalar_answer_fails_episode_witness :
  json_loads env_null "null" = Ok JNull /\
  process_episode env_null ep_bob empty_world
  = (Ok (failure env_null (JStr "Ep2") (TypeError NotIterable JNull)),
     mkWorld
       (mkGraph [Episode (JStr "Ep2") pushups text (JStr "") 1700000000%Z] [])
       [EvLog (LogEpisodeError (JStr "Ep2") (TypeError NotIterable JNull));
        EvLog (LogLLMResponse "null");
        EvCompletion (prompt env_null pushups);
        EvAddEpisode (JStr "Ep2") pushups text (JStr "") 1700000000%Z;
        EvNow 1700000000%Z]).
Proof.
  split; [reflexivity|].
  apply (@scalar_answer_fails_episode env_null ep_bob (JStr "Ep2") pushups
           (JStr "") JNull 1700000000%Z "null" JNull empty_world);
    [repeat split | reflexivity | reflexivity | reflexivity | reflexivity
    | reflexivity | reflexivity | reflexivity].
Defined.

Lemma parsed_reference_time_is_stored_witness :
  fromisoformat env "2025-01-01T00:00:00+00:00" = Some 1735689600%Z /\
  In (Episode (JStr "Ep5") pushups text (JStr "") 1735689600%Z)
    (nodes (graph (snd (process_episode env ep_dated empty_world)))).
Proof.
  split; [reflexivity|].
  apply (proj2 (@parsed_reference_time_is_stored env ep_dated (JStr "Ep5") pushups
                  (JStr "") "2025-01-01T00:00:00+00:00" 1735689600%Z empty_world
                  (conj eq_refl (conj eq_refl (conj eq_refl eq_refl)))
                  eq_refl eq_refl
                  (fun H => match H in _ = s
                                  return match s with
                                         | EmptyString => False
                                         | String _ _ => True
                                         end
                            with eq_refl => I end)
                  eq_refl)).
  reflexivity.
Defined.

Lemma non_string_reference_time_rejected_witness :
  truthy (JNum 1700000000) = true /\
  process_episode env ep_numeric_time empty_world
  = (Ok (invalid_time_error env (JStr "Ep6")),
     mkWorld (graph empty_world) [EvNow 1700000000%Z]).
Proof.
  split; [reflexivity|].
  apply (@non_string_reference_time_rejected env ep_numeric_time (JStr "Ep6")
           pushups (JStr "") (JNum 1700000000) empty_world);
    [repeat split | reflexivity | reflexivity | reflexivity | discriminate].
Defined.

Lemma non_object_element_aborts_witness :
  is_dict (JNum 3) = false /\
  add_episodes env (JArr ([ep_no_name] ++ JNum 3 :: [ep1])) empty_world
  = (Raise (AttributeError (JNum 3) "get"),
     world_after env [ep_no_name] empty_world).
Proof.
  split; [reflexivity|].
  apply (@non_object_element_aborts env [ep_no_name] [ep1] (JNum 3) empty_world);
    [repeat constructor | reflexivity].
Defined.

Lemma search_success_witness :
  GrafityMain.SearchRequest (JObj [("query", JStr "yoga")]) = Ok "yoga" /\
  exists dicts,
    fst (GrafityMain.search_graphiti_api env search_env
           (JObj [("query", JStr "yoga")]) empty_world)
    = Ok (mkResponse 200 (JArr dicts)) /\
    nth_error dicts 0
    = Some (JObj [("uuid", JStr "e-1");
                  ("fact", JStr "Alice practices Yoga");
                  ("valid_at", JStr "2025-01-01 00:00:00+00:00");
                  ("invalid_at", JNull);
                  ("source_node_uuid", JStr "n-1")]).
Proof.
  split; [reflexivity|].
  destruct (@search_success env search_env (JObj [("query", JStr "yoga")]) "yoga"
              [yoga_match] empty_world eq_refl eq_refl eq_refl)
    as (dicts & Hrun & _ & _ & Hnth).
  exists dicts. split; [exact Hrun|]. exact (Hnth 0 yoga_match eq_refl).
Defined.

Lemma search_request_without_query_witness :
  exists e,
    GrafityMain.search_graphiti_api env search_env (JObj [("q", JStr "yoga")])
      empty_world
    = (Ok GrafityMain.generic_failure,
       mkWorld (graph empty_world)
         [EvLog (LogTraceback e); EvLog (LogRequestFailure e);
          EvLog (LogRequestData (JObj [("q", JStr "yoga")]))]).
Proof.
  apply (@search_request_without_query env search_env (JObj [("q", JStr "yoga")])
           empty_world).
  intros l [= <-]. reflexivity.
Defined.

(** Lower-casing: ASCII letters, and the Kelvin sign, which becomes k. *)
Example lower_examples :
  GrafityMain.lower "Fact_Triple" = "fact_triple" /\
  GrafityMain.lower "Kelvin" = "kelvin".
Proof. split; reflexivity. Qed.


Lemma valid_episode_type_witness :
  GrafityMain.lower "TEXT" = "text" /\
  GrafityMain.add_episode_to_graphiti env four_members shouted empty_world
  = (Ok tt,
     mkWorld
       (mkGraph
          [Episode (JStr "Ep7") (JStr "Bob does pushups.") text (JStr "a note")
             1700000000%Z] [])
       [EvAddEpisode (JStr "Ep7") (JStr "Bob does pushups.") text (JStr "a note")
          1700000000%Z;
        EvNow 1700000000%Z]).
Proof.
  split; [reflexivity|].
  apply (@valid_episode_type env four_members shouted empty_world).
  right. right. left. reflexivity.
Defined.

End ConcreteMore.
